(** * The Auth facade of amplify-sdk: a shallow embedding and its properties

    The module embedded here is the [Auth] class (constructor,
    [applyDefaults], [createAuthenticator], [getAccount], [list], [login],
    [revoke], [serverInfo]).  JavaScript values are a small inductive type,
    objects are finite maps from property names to values, thrown errors are
    the [Throw] outcome and the asynchronous methods run in a state-and-error
    monad over the outside world (log, network, persisted entries). *)

From stdpp Require Import gmap strings list fin_maps pretty.

Set Warnings "-register-all".

Local Open Scope string_scope.
Local Open Scope Z_scope.

(** ** JavaScript values *)

(** The classes the module imports, as far as [instanceof] tells them apart. *)
Inductive Class :=
  | ClsObject
  | ClsTokenStore | ClsMemoryStore | ClsFileStore | ClsSecureStore
  | ClsAuthenticator | ClsClientSecret | ClsOwnerPassword | ClsPKCE | ClsSignedJWT.

(** Numbers are the integers.  An array carries its elements and, being an
    object, its named properties. *)
Inductive JsVal :=
  | JUndefined
  | JNull
  | JBool (b : bool)
  | JNum (n : Z)
  | JStr (s : string)
  | JArr (elems : list JsVal) (props : gmap string JsVal)
  | JObj (c : Class) (props : gmap string JsVal).

(** The literal [{}] and the literal [[x, y, ...]]. *)
Definition empty_object : JsVal := JObj ClsObject ∅.
Definition array_of (xs : list JsVal) : JsVal := JArr xs ∅.

(** [extends c]: the class [c] is declared to extend. *)
Definition extends (c : Class) : option Class :=
  match c with
  | ClsMemoryStore | ClsFileStore | ClsSecureStore => Some ClsTokenStore
  | ClsClientSecret | ClsOwnerPassword | ClsPKCE | ClsSignedJWT => Some ClsAuthenticator
  | ClsTokenStore | ClsAuthenticator => Some ClsObject
  | ClsObject => None
  end.

Definition class_eqb (c d : Class) : bool :=
  match c, d with
  | ClsObject, ClsObject | ClsTokenStore, ClsTokenStore
  | ClsMemoryStore, ClsMemoryStore | ClsFileStore, ClsFileStore
  | ClsSecureStore, ClsSecureStore | ClsAuthenticator, ClsAuthenticator
  | ClsClientSecret, ClsClientSecret | ClsOwnerPassword, ClsOwnerPassword
  | ClsPKCE, ClsPKCE | ClsSignedJWT, ClsSignedJWT => true
  | _, _ => false
  end.

(** The prototype chain has at most three links. *)
Definition subclass (c d : Class) : bool :=
  class_eqb c d
  || match extends c with
     | Some p => class_eqb p d
                 || match extends p with Some q => class_eqb q d | None => false end
     | None => false
     end.

(** [v instanceof C] *)
Definition instanceof (v : JsVal) (C : Class) : bool :=
  match v with
  | JObj c _ => subclass c C
  | JArr _ _ => class_eqb C ClsObject
  | _ => false
  end.

(** Truthiness, as [if (v)], [!v], [a || b] and [a && b] test it. *)
Definition truthy (v : JsVal) : bool :=
  match v with
  | JUndefined | JNull => false
  | JBool b => b
  | JNum n => negb (n =? 0)
  | JStr s => negb (String.eqb s EmptyString)
  | JArr _ _ | JObj _ _ => true
  end.

(** [a || b] *)
Definition jor (a b : JsVal) : JsVal := if truthy a then a else b.
Infix "|||" := jor (at level 50, left associativity).

(** [typeof v] *)
Definition typeof (v : JsVal) : string :=
  match v with
  | JUndefined => "undefined"
  | JNull | JArr _ _ | JObj _ _ => "object"
  | JBool _ => "boolean"
  | JNum _ => "number"
  | JStr _ => "string"
  end.

(** [v === 'literal'] and [v === undefined] *)
Definition is_str (v : JsVal) (s : string) : bool :=
  match v with JStr s' => String.eqb s' s | _ => false end.
Definition is_undefined (v : JsVal) : bool :=
  match v with JUndefined => true | _ => false end.

(** [Array.isArray(v)] *)
Definition isArray (v : JsVal) : bool :=
  match v with JArr _ _ => true | _ => false end.

(** The elements a [for (const x of v)] visits when [v] is an array. *)
Definition elements (v : JsVal) : list JsVal :=
  match v with JArr xs _ => xs | _ => [] end.

(** String conversion, as a template literal [`${v}`] and a computed
    property key [o[v]] apply it.  Inside an array, [null] and [undefined]
    are printed as the empty string. *)
Fixpoint to_string (v : JsVal) : string :=
  match v with
  | JUndefined => "undefined"
  | JNull => "null"
  | JBool true => "true"
  | JBool false => "false"
  | JNum n => pretty n
  | JStr s => s
  | JArr xs _ =>
      String.concat ","
        (map (λ x, match x with
                   | JUndefined | JNull => EmptyString
                   | _ => to_string x
                   end) xs)
  | JObj _ _ => "[object Object]"
  end.

(** Property read [v.k] on a value that is not [null] or [undefined]:
    a missing property reads as [undefined]; strings and arrays have a
    [length]. *)
Definition getp (v : JsVal) (k : string) : JsVal :=
  match v with
  | JObj _ props => default JUndefined (props !! k)
  | JArr xs props =>
      if String.eqb k "length" then JNum (Z.of_nat (List.length xs))
      else default JUndefined (props !! k)
  | JStr s => if String.eqb k "length" then JNum (Z.of_nat (String.length s))
              else JUndefined
  | _ => JUndefined
  end.

(** Property write [v.k = x] on an object. *)
Definition setp (v : JsVal) (k : string) (x : JsVal) : JsVal :=
  match v with
  | JObj c props => JObj c (<[k := x]> props)
  | JArr xs props => JArr xs (<[k := x]> props)
  | _ => v
  end.

(** ** Thrown errors and outcomes *)

(** An error value: the [code] property the errors module attaches (absent
    on the runtime's own errors) and the message. *)
Record JsError := mkError {
  err_code : option string;
  err_message : string
}.

Inductive Outcome (A : Type) :=
  | Return (a : A)
  | Throw (e : JsError).
Arguments Return {A} a.
Arguments Throw {A} e.

Definition bindO {A B} (m : Outcome A) (k : A → Outcome B) : Outcome B :=
  match m with
  | Return a => k a
  | Throw e => Throw e
  end.

Notation "'let!' x ':=' e 'in' k" := (bindO e (λ x, k))
  (at level 10, x name, e at level 100, k at level 200).

(** The runtime's own error when a property of [null] or [undefined] is
    read, or when something that is not a function is called. *)
Definition TypeError (msg : string) : JsError := mkError None msg.

(** Checked property read [v.k]: throws on [null] and [undefined]. *)
Definition get_prop (v : JsVal) (k : string) : Outcome JsVal :=
  match v with
  | JUndefined | JNull =>
      Throw (TypeError ("Cannot read property '" ++ k ++ "' of " ++ to_string v))
  | _ => Return (getp v k)
  end.

(** Modelled from the spec: the errors module [./errors], the factory [E]
    of the taxonomy.  Each factory makes an error whose [code] is the kind
    prefixed with [ERR_], the form the constructor tests with
    [e.code === 'ERR_MISSING_REQUIRED_PARAMETER']. *)
Module E.
Definition INVALID_ARGUMENT (msg : string) : JsError :=
  mkError (Some "ERR_INVALID_ARGUMENT") msg.
Definition INVALID_PARAMETER (msg : string) : JsError :=
  mkError (Some "ERR_INVALID_PARAMETER") msg.
Definition INVALID_VALUE (msg : string) : JsError :=
  mkError (Some "ERR_INVALID_VALUE") msg.
Definition MISSING_REQUIRED_PARAMETER (msg : string) : JsError :=
  mkError (Some "ERR_MISSING_REQUIRED_PARAMETER") msg.
End E.

(** The double quote character, for the messages that quote a word. *)
Definition dquote : string := String (Ascii.ascii_of_nat 34) EmptyString.

(** [e.code === 'literal'] *)
Definition code_is (e : JsError) (s : string) : bool :=
  match err_code e with Some c => String.eqb c s | None => false end.

(** ** The outside world and the monad of the asynchronous methods *)

(** What a method can observe and change outside its arguments: the lines
    written to the logger, the URLs requested over the network, and the
    credential entries the token store persists. *)
Record World := mkWorld {
  w_log : list string;
  w_requests : list string;
  w_entries : list JsVal
}.

(** An [async] method: it runs on a world, settles with a value or a
    rejection, and leaves a world behind.  [await] is the bind. *)
Definition M (A : Type) : Type := World → Outcome A * World.

Definition ret {A} (a : A) : M A := λ w, (Return a, w).
Definition throw {A} (e : JsError) : M A := λ w, (Throw e, w).
Definition liftO {A} (m : Outcome A) : M A := λ w, (m, w).

Definition bindM {A B} (m : M A) (k : A → M B) : M B :=
  λ w, match m w with
       | (Return a, w') => k a w'
       | (Throw e, w') => (Throw e, w')
       end.

Notation "'await' x '←' e ';' k" := (bindM e (λ x, k))
  (at level 10, x name, e at level 100, k at level 200).
Notation "'run' e ';' k" := (bindM e (λ _, k))
  (at level 10, e at level 100, k at level 200).

(** [log(line)] of the [amplify-auth] logger. *)
Definition log (line : string) : M unit :=
  λ w, (Return (), mkWorld (w_log w ++ [line]) (w_requests w) (w_entries w)).

(** [for (const x of xs) { await body(x) }] *)
Fixpoint for_of (xs : list JsVal) (body : JsVal → M unit) : M unit :=
  match xs with
  | [] => ret ()
  | x :: rest => run body x; for_of rest body
  end.

(** The response of an HTTP request, as far as [revoke] reads it. *)
Record Response := mkResponse {
  ok : bool;
  status : Z
}.

(** An object made by [new]: its class and its own properties. *)
Record Instance := mkInstance {
  inst_class : Class;
  inst_props : gmap string JsVal
}.

Definition object_of (i : Instance) : JsVal := JObj (inst_class i) (inst_props i).

(** [new C(opts)] *)
Definition new_ (C : JsVal → Outcome Instance) (opts : JsVal) : Outcome JsVal :=
  let! i := C opts in Return (object_of i).

(** ** What the module imports

    The stores, the authenticators, the environment table, the endpoint
    templates, the discovery helper, the network and the log styles are
    defined in other modules.  The facade is embedded over any
    implementation of them. *)
Class Imports := {
  (** [./environments]: the table of named environments, with the
      properties it defines itself; it is an ordinary object. *)
  environments : gmap string JsVal;
  (** [./endpoints] *)
  getEndpoints : JsVal → Outcome JsVal;
  (** [getServerInfo] of [./util] *)
  getServerInfo : JsVal → M JsVal;
  (** What the network answers to the GET that [fetch(url)] sends: a
      response, or a transport failure. *)
  network : string → Outcome Response;
  (** [snooplogg.styles] *)
  alert : string → string;
  highlight : string → string;
  magenta : string → string;
  note : string → string;
  (** The constructors of the three stores. *)
  SecureStore : JsVal → Outcome Instance;
  FileStore : JsVal → Outcome Instance;
  MemoryStore : JsVal → Outcome Instance;
  (** The methods of a token store, applied to the receiver. *)
  TokenStore_get : JsVal → JsVal → M JsVal;
  TokenStore_list : JsVal → M JsVal;
  TokenStore_delete : JsVal → JsVal → JsVal → M JsVal;
  TokenStore_clear : JsVal → JsVal → M JsVal;
  (** The constructors of the four authenticators and their [login]. *)
  OwnerPassword : JsVal → Outcome Instance;
  ClientSecret : JsVal → Outcome Instance;
  SignedJWT : JsVal → Outcome Instance;
  PKCE : JsVal → Outcome Instance;
  Authenticator_login : JsVal → JsVal → M JsVal
}.

(** [fetch(url)] of node-fetch: the request goes out, then the promise
    resolves with the response or rejects with the transport failure. *)
Definition fetch `{Imports} (url : string) : M Response :=
  λ w, (network url, mkWorld (w_log w) (w_requests w ++ [url]) (w_entries w)).

(** The names every ordinary object inherits from [Object.prototype]. *)
Definition Object_prototype_names : list string :=
  [ "constructor"; "hasOwnProperty"; "isPrototypeOf"; "propertyIsEnumerable";
    "toLocaleString"; "toString"; "valueOf"; "__defineGetter__";
    "__defineSetter__"; "__lookupGetter__"; "__lookupSetter__"; "__proto__" ].

(** What a name reads as on an object that does not define it: the
    inherited member, or [undefined].  The member is a method (for
    [__proto__], the prototype itself): an object without a [baseUrl];
    [applyDefaults] tests its truth and reads its [baseUrl], no more. *)
Definition inherited (k : string) : JsVal :=
  if existsb (String.eqb k) Object_prototype_names
  then JObj ClsObject ∅
  else JUndefined.

(** [environments[env]]: the table's own property of that name, or the one
    it inherits. *)
Definition environments_at `{Imports} (env : JsVal) : JsVal :=
  match environments !! to_string env with
  | Some v => v
  | None => inherited (to_string env)
  end.

(** A parameter declared [opts = {}]. *)
Definition default_param (arg : JsVal) : JsVal :=
  if is_undefined arg then empty_object else arg.

(** ** The Auth class *)

(** The instance: the ten properties [Object.defineProperties] fixes and
    the [tokenStore] field, [null] until the constructor assigns it. *)
Record Auth := mkAuth {
  baseUrl : JsVal;
  clientId : JsVal;
  clientSecret : JsVal;
  env : JsVal;
  messages : JsVal;
  password : JsVal;
  realm : JsVal;
  secretFile : JsVal;
  serviceAccount : JsVal;
  username : JsVal;
  tokenStore : JsVal
}.

(** [this.tokenStore = store] *)
Definition set_tokenStore (this : Auth) (store : JsVal) : Auth :=
  mkAuth (baseUrl this) (clientId this) (clientSecret this) (env this)
         (messages this) (password this) (realm this) (secretFile this)
         (serviceAccount this) (username this) store.

Section AuthClass.
Context `{Imports}.

(** *** The constructor

    The [switch] on the store type falls through from one [case] to the
    next when a [catch] swallows the error; each [case] is a function that
    ends in the next one. *)

Definition case_memory (opts : JsVal) : Outcome JsVal :=
  new_ MemoryStore opts.

Definition case_file (tokenStoreType opts : JsVal) : Outcome JsVal :=
  match new_ FileStore opts with
  | Return store => Return store
  | Throw e =>
      if is_str tokenStoreType "auto" && code_is e "ERR_MISSING_REQUIRED_PARAMETER"
      then case_memory opts
      else Throw e
  end.

Definition case_secure (tokenStoreType opts : JsVal) : Outcome JsVal :=
  match new_ SecureStore opts with
  | Return store => Return store
  | Throw e =>
      if is_str tokenStoreType "auto"
      then case_file tokenStoreType opts
      else Throw e
  end.

(** The value of [this.tokenStore] after the [switch]; no [case] matching
    leaves it [null]. *)
Definition switch_tokenStoreType (tokenStoreType opts : JsVal) : Outcome JsVal :=
  if is_str tokenStoreType "auto" || is_str tokenStoreType "secure" then
    case_secure tokenStoreType opts
  else if is_str tokenStoreType "file" then
    case_file tokenStoreType opts
  else if is_str tokenStoreType "memory" then
    case_memory opts
  else
    Return JNull.

(** [const tokenStoreType = opts.tokenStoreType === undefined ? 'auto' : opts.tokenStoreType] *)
Definition tokenStoreType_of (opts : JsVal) : JsVal :=
  if is_undefined (getp opts "tokenStoreType") then JStr "auto"
  else getp opts "tokenStoreType".

(** [new Auth(opts)] *)
Definition constructor (arg : JsVal) : Outcome Auth :=
  let opts := default_param arg in
  if negb (truthy opts) || negb (String.eqb (typeof opts) "object") then
    Throw (E.INVALID_ARGUMENT "Expected options to be an object")
  else
    let this :=
      mkAuth (getp opts "baseUrl") (getp opts "clientId") (getp opts "clientSecret")
             (getp opts "env") (getp opts "messages") (getp opts "password")
             (getp opts "realm") (getp opts "secretFile")
             (getp opts "serviceAccount") (getp opts "username") JNull in
    if truthy (getp opts "tokenStore") then
      if negb (instanceof (getp opts "tokenStore") ClsTokenStore) then
        Throw (E.INVALID_PARAMETER
                 ("Expected the token store to be a " ++ dquote ++ "TokenStore"
                  ++ dquote ++ " instance"))
      else
        Return (set_tokenStore this (getp opts "tokenStore"))
    else
      let tokenStoreType := tokenStoreType_of opts in
      let! store := switch_tokenStoreType tokenStoreType opts in
      Return (set_tokenStore this store).

(** *** applyDefaults

    The method mutates [opts]; the embedding returns the object as the
    method leaves it. *)
Definition applyDefaults (this : Auth) (arg : JsVal) : Outcome JsVal :=
  let opts := default_param arg in
  if negb (truthy opts) || negb (String.eqb (typeof opts) "object") then
    Throw (E.INVALID_ARGUMENT "Expected options to be an object")
  else
    let env_ := getp opts "env" ||| env this ||| JStr "prod" in
    if negb (truthy (environments_at env_)) then
      Throw (E.INVALID_VALUE
               ("Invalid environment: " ++ to_string (getp opts "env" ||| env this)))
    else
      let opts := setp opts "baseUrl"
                    (getp opts "baseUrl" ||| baseUrl this
                     ||| getp (environments_at env_) "baseUrl") in
      let opts := setp opts "clientId" (getp opts "clientId" ||| clientId this) in
      let opts := setp opts "clientSecret"
                    (getp opts "clientSecret" ||| clientSecret this) in
      let opts := setp opts "env" env_ in
      let opts := setp opts "messages" (getp opts "messages" ||| messages this) in
      let opts := setp opts "password" (getp opts "password" ||| password this) in
      let opts := setp opts "realm" (getp opts "realm" ||| realm this) in
      let opts := setp opts "secretFile"
                    (getp opts "secretFile" ||| secretFile this) in
      let opts := setp opts "serviceAccount"
                    (getp opts "serviceAccount" ||| serviceAccount this) in
      let opts := setp opts "tokenStore" (tokenStore this) in
      let opts := setp opts "username" (getp opts "username" ||| username this) in
      Return opts.

(** *** createAuthenticator

    [E.INVALID_ARUGMENT] is not a property of the errors module: calling
    it is the runtime's error, not one of the taxonomy. *)
Definition createAuthenticator (arg : JsVal) : Outcome JsVal :=
  let opts := default_param arg in
  let! authenticator := get_prop opts "authenticator" in
  if truthy authenticator then
    if negb (instanceof authenticator ClsAuthenticator) then
      Throw (TypeError "E.INVALID_ARUGMENT is not a function")
    else
      Return authenticator
  else if String.eqb (typeof (getp opts "username")) "string"
          && truthy (getp opts "username")
          && String.eqb (typeof (getp opts "password")) "string" then
    new_ OwnerPassword opts
  else if String.eqb (typeof (getp opts "clientSecret")) "string"
          && truthy (getp opts "clientSecret") then
    new_ ClientSecret opts
  else if String.eqb (typeof (getp opts "secretFile")) "string"
          && truthy (getp opts "secretFile") then
    new_ SignedJWT opts
  else
    new_ PKCE opts.

(** *** getAccount *)
Definition getAccount (this : Auth) (arg : JsVal) : M JsVal :=
  let opts := default_param arg in
  if negb (truthy (tokenStore this)) then
    run log "Cannot get account, no token store";
    ret JNull
  else
    await opts ← liftO (applyDefaults this opts);
    await authenticator ← liftO (createAuthenticator opts);
    await hash ← liftO (get_prop authenticator "hash");
    let opts := setp opts "hash" hash in
    TokenStore_get (tokenStore this) opts.

(** *** list *)
Definition list_ (this : Auth) : M JsVal :=
  if truthy (tokenStore this) then
    TokenStore_list (tokenStore this)
  else
    ret (array_of []).

(** *** login *)
Definition login (this : Auth) (arg : JsVal) : M JsVal :=
  let opts := default_param arg in
  await opts ← liftO (applyDefaults this opts);
  await authenticator ← liftO (createAuthenticator opts);
  Authenticator_login authenticator opts.

(** *** revoke

    The parameter is the destructuring pattern
    [{ accounts, all, baseUrl } = {}]: [revoke] binds the three names from
    the argument, which fails on [null], and [revoke_body] is the statements
    of the method over the bound names. *)

(** One turn of the loop over the revoked entries. *)
Definition logout_url (entry : JsVal) : Outcome string :=
  let! endpoints := getEndpoints entry in
  let! logout := get_prop endpoints "logout" in
  let! tokens := get_prop entry "tokens" in
  let! id_token := get_prop tokens "id_token" in
  Return (to_string logout ++ "?id_token_hint=" ++ to_string id_token).

Definition logout_line (entry : JsVal) (res : Response) : string :=
  if ok res then
    "Successfully logged out " ++ highlight (to_string (getp entry "name"))
    ++ " " ++ magenta (pretty (status res)) ++ " "
    ++ note ("(" ++ to_string (getp entry "baseUrl") ++ ", "
             ++ to_string (getp entry "realm") ++ ")")
  else
    "Failed to log out " ++ highlight (to_string (getp entry "name"))
    ++ " " ++ alert (pretty (status res)) ++ " "
    ++ note ("(" ++ to_string (getp entry "baseUrl") ++ ", "
             ++ to_string (getp entry "realm") ++ ")").

Definition logout_entry (entry : JsVal) : M unit :=
  await url ← liftO (logout_url entry);
  await res ← fetch url;
  log (logout_line entry res).

Definition revoke_body (this : Auth) (accounts all baseUrl_ : JsVal) : M JsVal :=
  if negb (truthy (tokenStore this)) then
    run log "No token store, returning empty array";
    ret (array_of [])
  else if negb (truthy all)
          && negb (String.eqb (typeof accounts) "string")
          && negb (isArray accounts) then
    throw (E.INVALID_ARGUMENT
             ("Expected accounts to be " ++ dquote ++ "all" ++ dquote
              ++ " or a list of accounts"))
  else if negb (truthy all) && negb (truthy (getp accounts "length")) then
    ret (array_of [])
  else
    await revoked ← (if truthy all
                     then TokenStore_clear (tokenStore this) baseUrl_
                     else TokenStore_delete (tokenStore this) accounts baseUrl_);
    run (if isArray revoked
         then for_of (elements revoked) logout_entry
         else ret ());
    ret revoked.

Definition revoke (this : Auth) (arg : JsVal) : M JsVal :=
  let opts := default_param arg in
  await accounts ← liftO (get_prop opts "accounts");
  await all ← liftO (get_prop opts "all");
  await baseUrl_ ← liftO (get_prop opts "baseUrl");
  revoke_body this accounts all baseUrl_.

(** *** serverInfo *)
Definition serverInfo (this : Auth) (arg : JsVal) : M JsVal :=
  let opts := default_param arg in
  await opts ← liftO (applyDefaults this opts);
  let url := getp opts "url" in
  await url ← (if negb (truthy url)
               then liftO (let! endpoints := getEndpoints opts in
                           get_prop endpoints "wellKnown")
               else ret url);
  getServerInfo url.

End AuthClass.

(** ** A reference implementation of the imports

    The properties below hold over every implementation of the imports.
    This one instance gives them concrete inputs to run on. *)
(** The object literal [{ k: v, ... }]. *)
Definition object (fields : list (string * JsVal)) : JsVal :=
  JObj ClsObject (list_to_map fields).

Module Model.

(** Modelled from the spec: the environment table of [./environments],
    with the three named environments [dev], [preprod] and [prod]; the base
    URLs are placeholders. *)
Definition environments : gmap string JsVal :=
  list_to_map
    [ ("dev", object [("baseUrl", JStr "https://login.dev.example.com")]);
      ("preprod", object [("baseUrl", JStr "https://login.preprod.example.com")]);
      ("prod", object [("baseUrl", JStr "https://login.example.com")]) ].

(** Modelled from the spec: [getEndpoints] of [./endpoints], pure URL
    templating over the base URL and the realm, in the shape of the
    discovery document's URLs. *)
Definition getEndpoints (v : JsVal) : Outcome JsVal :=
  let! base := get_prop v "baseUrl" in
  let root := to_string base ++ "/auth/realms/" ++ to_string (getp v "realm") in
  Return (object
    [ ("logout", JStr (root ++ "/protocol/openid-connect/logout"));
      ("wellKnown", JStr (root ++ "/.well-known/openid-configuration")) ]).

(** Modelled from the spec: [getServerInfo] of [./util], an HTTP GET of the
    discovery URL that fails on a response that is not 2xx; the document is
    reduced to its issuer. *)
Definition getServerInfo (net : string → Outcome Response) (url : JsVal) : M JsVal :=
  λ w,
    let w' := mkWorld (w_log w) (w_requests w ++ [to_string url]) (w_entries w) in
    match net (to_string url) with
    | Return res =>
        if ok res then (Return (object [("issuer", url)]), w')
        else (Throw (mkError (Some "ERR_NETWORK") "Failed to get server info"), w')
    | Throw e => (Throw e, w')
    end.

(** Modelled from the spec: the token store contract over the persisted
    entries, [get] by fingerprint, [list], [delete] by account names and
    [clear], the last two filtered by base URL when one is given and
    returning the removed entries. *)
Definition same_string (a b : JsVal) : bool :=
  match a, b with
  | JStr x, JStr y => String.eqb x y
  | _, _ => false
  end.

Definition matches_baseUrl (baseUrl_ entry : JsVal) : bool :=
  negb (truthy baseUrl_) || same_string (getp entry "baseUrl") baseUrl_.

Definition account_names (accounts : JsVal) : list JsVal :=
  match accounts with
  | JStr _ => [accounts]
  | _ => elements accounts
  end.

Definition named_in (names : list JsVal) (entry : JsVal) : bool :=
  existsb (same_string (getp entry "name")) names.

Definition store_get (this opts : JsVal) : M JsVal :=
  λ w, (Return (default JNull
                  (List.find (λ e, same_string (getp e "hash") (getp opts "hash"))
                             (w_entries w))), w).

Definition store_list (this : JsVal) : M JsVal :=
  λ w, (Return (array_of (w_entries w)), w).

Definition remove_where (doomed : JsVal → bool) : M JsVal :=
  λ w, (Return (array_of (List.filter doomed (w_entries w))),
        mkWorld (w_log w) (w_requests w)
                (List.filter (λ e, negb (doomed e)) (w_entries w))).

Definition store_delete (this accounts baseUrl_ : JsVal) : M JsVal :=
  remove_where (λ e, named_in (account_names accounts) e && matches_baseUrl baseUrl_ e).

Definition store_clear (this baseUrl_ : JsVal) : M JsVal :=
  remove_where (matches_baseUrl baseUrl_).

(** The host the facade runs on: whether it has a credential vault, the
    error the file system answers with when the storage directory cannot be
    used, and what the network answers to a GET. *)
Record Host := mkHost {
  vault : bool;
  disk : option JsError;
  net : string → Outcome Response
}.

(** Modelled from the spec: the store constructors.  The file store needs a
    storage directory, and one the file system lets it use; the secure store
    needs the host's credential vault. *)
Definition MemoryStore (opts : JsVal) : Outcome Instance :=
  Return (mkInstance ClsMemoryStore ∅).

Definition FileStore (h : Host) (opts : JsVal) : Outcome Instance :=
  if truthy (getp opts "tokenStoreDir") then
    match disk h with
    | Some e => Throw e
    | None =>
        Return (mkInstance ClsFileStore
                  {[ "tokenStoreDir" := getp opts "tokenStoreDir" ]})
    end
  else
    Throw (E.MISSING_REQUIRED_PARAMETER "Token store requires a token store path").

Definition SecureStore (h : Host) (opts : JsVal) : Outcome Instance :=
  if vault h then
    let! file := FileStore h opts in
    Return (mkInstance ClsSecureStore (inst_props file))
  else
    Throw (mkError (Some "ERR_KEYTAR_NOT_FOUND") "Secure token store is not available").

(** Modelled from the spec: the authenticators.  The fingerprint is derived
    from the kind, the client id, the realm and the base URL; the
    owner-password grant needs a user name and a password that are not
    empty. *)
Definition fingerprint (kind : string) (opts : JsVal) : JsVal :=
  JStr (kind ++ ":" ++ to_string (getp opts "clientId") ++ ":"
        ++ to_string (getp opts "realm") ++ ":" ++ to_string (getp opts "baseUrl")).

Definition authenticator (c : Class) (kind : string) (opts : JsVal) : Instance :=
  mkInstance c (list_to_map [ ("hash", fingerprint kind opts);
                              ("baseUrl", getp opts "baseUrl");
                              ("realm", getp opts "realm") ]).

Definition PKCE (opts : JsVal) : Outcome Instance :=
  Return (authenticator ClsPKCE "pkce" opts).
Definition ClientSecret (opts : JsVal) : Outcome Instance :=
  Return (authenticator ClsClientSecret "secret" opts).
Definition SignedJWT (opts : JsVal) : Outcome Instance :=
  Return (authenticator ClsSignedJWT "jwt" opts).
Definition OwnerPassword (opts : JsVal) : Outcome Instance :=
  if truthy (getp opts "username") && truthy (getp opts "password") then
    Return (authenticator ClsOwnerPassword "password" opts)
  else
    Throw (E.INVALID_ARGUMENT "Expected username and password to be non-empty strings").

(** Modelled from the spec: [login] of an authenticator, reduced to what
    the facade sees of it: the entry is persisted under the fingerprint,
    replacing the one of the same fingerprint, and returned. *)
Definition Authenticator_login (this opts : JsVal) : M JsVal :=
  λ w,
    let entry := object
      [ ("hash", getp this "hash");
        ("name", getp opts "username" ||| getp opts "clientId");
        ("baseUrl", getp this "baseUrl");
        ("realm", getp this "realm");
        ("tokens", object [ ("access_token", JStr "access");
                            ("id_token", JStr "id") ]) ] in
    (Return entry,
     mkWorld (w_log w) (w_requests w)
             (List.filter (λ e, negb (same_string (getp e "hash") (getp this "hash")))
                          (w_entries w) ++ [entry])).

(** The imports on a host. *)
Definition imports (h : Host) : Imports :=
  Build_Imports
    environments getEndpoints (getServerInfo (net h)) (net h)
    id id id id
    (SecureStore h) (FileStore h) MemoryStore
    store_get store_list store_delete store_clear
    OwnerPassword ClientSecret SignedJWT PKCE Authenticator_login.

End Model.

(** *** Hosts, instances and worlds to run on *)

Import Model (Host, mkHost).

Definition answers (res : Response) : string → Outcome Response := λ _, Return res.
Definition unreachable : string → Outcome Response :=
  λ _, Throw (mkError (Some "ECONNREFUSED") "request failed, reason: connect ECONNREFUSED").

(** A host without a vault, with a usable disk, whose identity provider
    answers 200 to everything. *)
Definition plain_host : Host := mkHost false None (answers (mkResponse true 200)).
(** The same host with an identity provider that answers 500. *)
Definition failing_idp_host : Host := mkHost false None (answers (mkResponse false 500)).
(** The same host with no route to the identity provider. *)
Definition offline_host : Host := mkHost false None unreachable.
(** A host without a vault whose disk refuses the storage directory. *)
Definition readonly_host : Host :=
  mkHost false (Some (mkError (Some "EACCES") "permission denied")) (answers (mkResponse true 200)).

(** [new Auth()] on a host without a vault: the memory store. *)
Definition auth_memory : Auth :=
  mkAuth JUndefined JUndefined JUndefined JUndefined JUndefined JUndefined
         JUndefined JUndefined JUndefined JUndefined (JObj ClsMemoryStore ∅).
(** [new Auth({ tokenStoreType: null })]: no store. *)
Definition auth_no_store : Auth :=
  mkAuth JUndefined JUndefined JUndefined JUndefined JUndefined JUndefined
         JUndefined JUndefined JUndefined JUndefined JNull.
(** [new Auth({ env: 'bogus', tokenStoreType: 'memory' })] *)
Definition auth_bogus_env : Auth :=
  mkAuth JUndefined JUndefined JUndefined (JStr "bogus") JUndefined JUndefined
         JUndefined JUndefined JUndefined JUndefined (JObj ClsMemoryStore ∅).

(** The entry a login of client [cid] in realm [r] persists. *)
Definition entry_cid : JsVal :=
  object
    [ ("hash", JStr "pkce:cid:r:https://login.example.com");
      ("name", JStr "cid");
      ("baseUrl", JStr "https://login.example.com");
      ("realm", JStr "r");
      ("tokens", object [ ("access_token", JStr "access"); ("id_token", JStr "id") ]) ].

Definition opts_cid : JsVal := object [ ("clientId", JStr "cid"); ("realm", JStr "r") ].
Definition opts_other : JsVal := object [ ("clientId", JStr "other"); ("realm", JStr "r") ].

Definition empty_world : World := mkWorld [] [] [].
Definition world_cid : World := mkWorld [] [] [entry_cid].

(** Options with every kind of credential at once. *)
Definition opts_all_credentials : JsVal :=
  object [ ("username", JStr "user"); ("password", JStr "pass");
           ("clientSecret", JStr "secret"); ("secretFile", JStr "/keys/jwt.pem") ].
(** Options whose [authenticator] is not an authenticator. *)
Definition opts_foreign_authenticator : JsVal :=
  object [ ("authenticator", JStr "pkce") ].
(** Options that name the discovery URL. *)
Definition opts_url : JsVal :=
  object [ ("url", JStr "https://idp.example.com/.well-known/openid-configuration") ].
(** Options with a base URL of their own, for an instance that has one too. *)
Definition opts_baseUrl : JsVal :=
  object [ ("baseUrl", JStr "https://call.example.com"); ("realm", JStr "r") ].
Definition auth_baseUrl : Auth :=
  mkAuth (JStr "https://instance.example.com") (JStr "cid") JUndefined JUndefined
         JUndefined JUndefined JUndefined JUndefined JUndefined JUndefined
         (JObj ClsMemoryStore ∅).
(** [new Auth({ env: 'bogus', tokenStoreType: null })] *)
Definition auth_bogus_env_no_store : Auth :=
  mkAuth JUndefined JUndefined JUndefined (JStr "bogus") JUndefined JUndefined
         JUndefined JUndefined JUndefined JUndefined JNull.

(** The logout URL of [entry_cid]. *)
Definition logout_url_cid : string :=
  "https://login.example.com/auth/realms/r/protocol/openid-connect/logout?id_token_hint=id".

(** The imports on each host. *)
Definition plain : Imports := Model.imports plain_host.
Definition failing_idp : Imports := Model.imports failing_idp_host.
Definition offline : Imports := Model.imports offline_host.
Definition readonly : Imports := Model.imports readonly_host.


(** *** More instances, options and worlds to run on *)

(** An implementation of the imports with another [clear] of the store, and
    one with another [getEndpoints]. *)
Definition with_clear (I : Imports) (clear : JsVal → JsVal → M JsVal) : Imports :=
  Build_Imports
    (@environments I) (@getEndpoints I) (@getServerInfo I) (@network I)
    (@alert I) (@highlight I) (@magenta I) (@note I)
    (@SecureStore I) (@FileStore I) (@MemoryStore I)
    (@TokenStore_get I) (@TokenStore_list I) (@TokenStore_delete I) clear
    (@OwnerPassword I) (@ClientSecret I) (@SignedJWT I) (@PKCE I)
    (@Authenticator_login I).

Definition with_getEndpoints (I : Imports) (endpoints : JsVal → Outcome JsVal)
    : Imports :=
  Build_Imports
    (@environments I) endpoints (@getServerInfo I) (@network I)
    (@alert I) (@highlight I) (@magenta I) (@note I)
    (@SecureStore I) (@FileStore I) (@MemoryStore I)
    (@TokenStore_get I) (@TokenStore_list I) (@TokenStore_delete I)
    (@TokenStore_clear I)
    (@OwnerPassword I) (@ClientSecret I) (@SignedJWT I) (@PKCE I)
    (@Authenticator_login I).

(** A store whose [clear] empties it and resolves with nothing. *)
Definition quiet : Imports :=
  with_clear plain
    (λ _ _ w, (Return JUndefined, mkWorld (w_log w) (w_requests w) [])).

(** Endpoints that insist on a realm. *)
Definition strict : Imports :=
  with_getEndpoints plain
    (λ v, if truthy (getp v "realm") then Model.getEndpoints v
          else Throw (E.INVALID_ARGUMENT "Expected realm to be a non-empty string")).

(** A host whose identity provider answers the logout of [entry_cid] and
    cannot be reached for anything else. *)
Definition selective_host : Host :=
  mkHost false None
    (λ url, if String.eqb url logout_url_cid
            then Return (mkResponse true 200)
            else unreachable url).
Definition selective : Imports := Model.imports selective_host.

(** An entry of realm [down], whose logout the selective host cannot reach,
    and worlds that hold it. *)
Definition entry_down : JsVal :=
  object
    [ ("hash", JStr "pkce:cid:down:https://login.example.com");
      ("name", JStr "cid-down");
      ("baseUrl", JStr "https://login.example.com");
      ("realm", JStr "down");
      ("tokens", object [ ("access_token", JStr "access"); ("id_token", JStr "id") ]) ].
Definition logout_url_down : string :=
  "https://login.example.com/auth/realms/down/protocol/openid-connect/logout?id_token_hint=id".

(** An entry with no identity token, and one with no tokens at all. *)
Definition entry_no_id_token : JsVal :=
  object
    [ ("name", JStr "service");
      ("baseUrl", JStr "https://login.example.com");
      ("realm", JStr "r");
      ("tokens", object [ ("access_token", JStr "access") ]) ].
Definition entry_no_tokens : JsVal :=
  object
    [ ("name", JStr "broken");
      ("baseUrl", JStr "https://login.example.com");
      ("realm", JStr "r") ].

Definition world_two : World := mkWorld [] [] [entry_cid; entry_cid].
Definition world_three : World := mkWorld [] [] [entry_cid; entry_down; entry_cid].
Definition world_broken : World := mkWorld [] [] [entry_cid; entry_no_tokens; entry_cid].

(** Options for the constructor. *)
Definition opts_supplied_store : JsVal :=
  object [ ("tokenStore", JObj ClsFileStore ∅); ("tokenStoreType", JStr "secure") ].
Definition opts_wrong_store : JsVal :=
  object [ ("tokenStore", JStr "memory") ].
Definition opts_memory : JsVal :=
  object [ ("tokenStoreType", JStr "memory") ].
Definition opts_instance : JsVal :=
  object [ ("baseUrl", JStr "https://instance.example.com"); ("clientId", JStr "cid") ].

(** [new Auth({ password: '', tokenStoreType: 'memory' })] *)
Definition auth_empty_password : Auth :=
  mkAuth JUndefined JUndefined JUndefined JUndefined JUndefined (JStr EmptyString)
         JUndefined JUndefined JUndefined JUndefined (JObj ClsMemoryStore ∅).

(** Options for the calls. *)
Definition opts_username : JsVal :=
  object [ ("username", JStr "user") ].
Definition opts_empty_password : JsVal :=
  object [ ("username", JStr "user"); ("password", JStr EmptyString);
           ("clientSecret", JStr "secret") ].
Definition opts_forged : JsVal :=
  object [ ("clientId", JStr "cid"); ("realm", JStr "r");
           ("hash", JStr "forged"); ("accountName", JStr "me") ].

(** What [applyDefaults] makes of [opts_baseUrl] for [auth_baseUrl]. *)
Definition opts_baseUrl_resolved : JsVal :=
  object
    [ ("baseUrl", JStr "https://call.example.com");
      ("clientId", JStr "cid");
      ("clientSecret", JUndefined);
      ("env", JStr "prod");
      ("messages", JUndefined);
      ("password", JUndefined);
      ("realm", JStr "r");
      ("secretFile", JUndefined);
      ("serviceAccount", JUndefined);
      ("tokenStore", JObj ClsMemoryStore ∅);
      ("username", JUndefined) ].

(** Arguments of [revoke]. *)
Definition args_all : JsVal := object [ ("all", JBool true) ].
Definition args_3 : JsVal := object [ ("accounts", JNum 3) ].
Definition args_cid : JsVal := object [ ("accounts", JStr "cid") ].
Definition args_empty_string : JsVal := object [ ("accounts", JStr EmptyString) ].
Definition args_empty_array : JsVal := object [ ("accounts", array_of []) ].

(** Options that name an environment the table does not define and every
    object inherits. *)
Definition opts_env_constructor : JsVal := object [ ("env", JStr "constructor") ].

(** The error of binding the parameter pattern of [revoke] to [null]. *)
Definition null_argument : JsError :=
  TypeError "Cannot read property 'accounts' of null".

(** ** Vocabulary of the properties *)

(** A value that is an object: what passes [opts && typeof opts === 'object']. *)
Definition isObject (v : JsVal) : bool :=
  match v with
  | JArr _ _ | JObj _ _ => true
  | _ => false
  end.

(** The world after one more line in the log; nothing else moves. *)
Definition logged (line : string) (w : World) : World :=
  mkWorld (w_log w ++ [line]) (w_requests w) (w_entries w).

(** The credentials an options object carries, as [createAuthenticator]
    reads them: a user name that is a non-empty string with a password that
    is a string, a client secret that is a non-empty string, a path to a
    secret file that is a non-empty string. *)
Definition username_password_present (opts : JsVal) : bool :=
  String.eqb (typeof (getp opts "username")) "string"
  && truthy (getp opts "username")
  && String.eqb (typeof (getp opts "password")) "string".

Definition clientSecret_present (opts : JsVal) : bool :=
  String.eqb (typeof (getp opts "clientSecret")) "string"
  && truthy (getp opts "clientSecret").

Definition secretFile_present (opts : JsVal) : bool :=
  String.eqb (typeof (getp opts "secretFile")) "string"
  && truthy (getp opts "secretFile").

(** The environment name a call resolves: per call, else of the instance,
    else [prod]. *)
Definition effective_env (this : Auth) (opts : JsVal) : JsVal :=
  getp opts "env" ||| env this ||| JStr "prod".

(** The options [applyDefaults] assigns. *)
Definition defaulted_options : list string :=
  [ "baseUrl"; "clientId"; "clientSecret"; "env"; "messages"; "password";
    "realm"; "secretFile"; "serviceAccount"; "tokenStore"; "username" ].

(** [k] is a property the object [v] holds itself. *)
Definition has_own (v : JsVal) (k : string) : bool :=
  match v with
  | JObj _ props | JArr _ props =>
      match props !! k with Some _ => true | None => false end
  | _ => false
  end.

(** The three names the parameter pattern of [revoke] binds from the
    argument of a call. *)
Definition accounts_of (arg : JsVal) : JsVal := getp (default_param arg) "accounts".
Definition all_of (arg : JsVal) : JsVal := getp (default_param arg) "all".
Definition baseUrl_of (arg : JsVal) : JsVal := getp (default_param arg) "baseUrl".

(** The arguments that get past the two argument checks of [revoke]: [all]
    is set, or [accounts] is a string or an array that is not empty. *)
Definition accounts_given (all accounts : JsVal) : bool :=
  truthy all
  || ((String.eqb (typeof accounts) "string" || isArray accounts)
      && truthy (getp accounts "length")).

(** The one call [revoke] makes on the store. *)
Definition store_removal `{Imports} (this : Auth) (accounts all baseUrl_ : JsVal)
    : M JsVal :=
  if truthy all
  then TokenStore_clear (tokenStore this) baseUrl_
  else TokenStore_delete (tokenStore this) accounts baseUrl_.

(** The world after the logout requests of [entries] were answered as
    [exchanges] lists them, URL and response, in order. *)
Definition after_logouts `{Imports} (entries : list JsVal)
    (exchanges : list (string * Response)) (w : World) : World :=
  mkWorld (w_log w ++ zip_with logout_line entries (exchanges.*2))
          (w_requests w ++ exchanges.*1)
          (w_entries w).

(** ** Properties *)

Section Basics.

Lemma default_param_object v : isObject v = true → default_param v = v.
Proof. by destruct v. Qed.

Lemma object_guard v :
  isObject v = true →
  negb (truthy v) || negb (String.eqb (typeof v) "object") = false.
Proof. by destruct v. Qed.

Lemma get_prop_object v k : isObject v = true → get_prop v k = Return (getp v k).
Proof. by destruct v. Qed.

Lemma isObject_setp v k x : isObject (setp v k x) = isObject v.
Proof. by destruct v. Qed.

Lemma getp_setp_ne v k k' x : k ≠ k' → getp (setp v k x) k' = getp v k'.
Proof.
  intros Hne. destruct v as [| | | | |xs props|c props]; simpl; try done.
  - destruct (String.eqb k' "length"); [done|]. by rewrite lookup_insert_ne.
  - by rewrite lookup_insert_ne.
Qed.

Lemma getp_setp_eq v k x :
  isObject v = true → k ≠ "length" → getp (setp v k x) k = x.
Proof.
  intros Hobj Hk. destruct v as [| | | | |xs props|c props]; simpl in *; try done.
  - destruct (String.eqb_spec k "length"); [done|]. by rewrite lookup_insert_eq.
  - by rewrite lookup_insert_eq.
Qed.

Lemma is_str_false v s : v ≠ JStr s → is_str v s = false.
Proof.
  intros Hne. destruct v; simpl; try done.
  destruct (String.eqb_spec s0 s); [congruence | done].
Qed.

End Basics.

Section Facade.
Context `{Imports}.

(** C7. On an instance with no token store, [list] returns an empty
    sequence and touches nothing; with a store it returns exactly what the
    store's own [list] returns. *)
Theorem list_returns_store_listing (this : Auth) (w : World) :
  (truthy (tokenStore this) = false → list_ this w = (Return (array_of []), w))
  ∧ (truthy (tokenStore this) = true →
     list_ this w = TokenStore_list (tokenStore this) w).
Proof.
  unfold list_. split; intros ->; reflexivity.
Qed.

(** *** The parameter of revoke *)

(** An argument that is not [null] binds: the call is the body of the
    method over the three properties of the argument, [undefined] where it
    has none. *)
Lemma revoke_bound (this : Auth) (arg : JsVal) (w : World) :
  arg ≠ JNull →
  revoke this arg w
  = revoke_body this (accounts_of arg) (all_of arg) (baseUrl_of arg) w.
Proof.
  intros Hnull. unfold revoke, accounts_of, all_of, baseUrl_of.
  by destruct arg.
Qed.

(** [null] does not bind: the call fails before the first statement of the
    method, with the runtime's error, and the world is as it was. *)
Lemma revoke_null (this : Auth) (w : World) :
  revoke this JNull w = (Throw null_argument, w).
Proof. reflexivity. Qed.

Lemma truthy_all_not_null (arg : JsVal) : truthy (all_of arg) = true → arg ≠ JNull.
Proof. by intros Hall ->. Qed.

Lemma accounts_kind_not_null (arg : JsVal) :
  typeof (accounts_of arg) = "string" ∨ isArray (accounts_of arg) = true →
  arg ≠ JNull.
Proof. by intros [Hs|Ha] ->. Qed.

Lemma accounts_given_not_null (arg : JsVal) :
  accounts_given (all_of arg) (accounts_of arg) = true → arg ≠ JNull.
Proof. by intros Hgiven ->. Qed.

(** C9, amended. On an instance with no token store, a [revoke] call
    whose argument is not [null] returns an empty sequence whatever
    [accounts] and [all] are: nothing is validated, no error is raised, and
    apart from one line in the log the world is left as it was, so neither
    the store nor the network is reached. *)
Theorem revoke_without_store (this : Auth) (arg : JsVal) (w : World) :
  arg ≠ JNull →
  truthy (tokenStore this) = false →
  revoke this arg w
  = (Return (array_of []), logged "No token store, returning empty array" w).
Proof.
  intros Hnull Hnone. rewrite (revoke_bound _ _ _ Hnull).
  unfold revoke_body. rewrite Hnone. reflexivity.
Qed.

(** C2, amended. On an instance with a token store, a [revoke] call whose
    argument is not [null], whose [all] flag is not set and whose [accounts]
    is neither a string nor an array fails with [INVALID_ARGUMENT], before
    the store or the network is touched. *)
Theorem revoke_rejects_invalid_accounts (this : Auth) (arg : JsVal) (w : World) :
  arg ≠ JNull →
  truthy (tokenStore this) = true →
  truthy (all_of arg) = false →
  typeof (accounts_of arg) ≠ "string" →
  isArray (accounts_of arg) = false →
  ∃ msg, revoke this arg w = (Throw (E.INVALID_ARGUMENT msg), w).
Proof.
  intros Hnull Hstore Hall Hstr Harr. rewrite (revoke_bound _ _ _ Hnull).
  unfold revoke_body.
  rewrite Hstore, Hall, Harr. simpl.
  destruct (String.eqb_spec (typeof (accounts_of arg)) "string") as [Heq|_]; [done|].
  simpl. eexists. reflexivity.
Qed.

(** *** The constructor's choice of a store *)

Lemma constructor_on_object (opts : JsVal) :
  isObject opts = true →
  truthy (getp opts "tokenStore") = false →
  constructor opts
  = let! store := switch_tokenStoreType (tokenStoreType_of opts) opts in
    Return (set_tokenStore
              (mkAuth (getp opts "baseUrl") (getp opts "clientId")
                      (getp opts "clientSecret") (getp opts "env")
                      (getp opts "messages") (getp opts "password")
                      (getp opts "realm") (getp opts "secretFile")
                      (getp opts "serviceAccount") (getp opts "username") JNull)
              store).
Proof.
  intros Hobj Hnone. unfold constructor.
  rewrite (default_param_object _ Hobj), (object_guard _ Hobj), Hnone.
  reflexivity.
Qed.

Lemma constructor_store (opts store : JsVal) :
  isObject opts = true →
  truthy (getp opts "tokenStore") = false →
  switch_tokenStoreType (tokenStoreType_of opts) opts = Return store →
  ∃ this, constructor opts = Return this ∧ tokenStore this = store.
Proof.
  intros Hobj Hnone Hsw. rewrite (constructor_on_object _ Hobj Hnone), Hsw.
  simpl. eexists. split; reflexivity.
Qed.

Lemma constructor_throws (opts : JsVal) (e : JsError) :
  isObject opts = true →
  truthy (getp opts "tokenStore") = false →
  switch_tokenStoreType (tokenStoreType_of opts) opts = Throw e →
  constructor opts = Throw e.
Proof.
  intros Hobj Hnone Hsw. by rewrite (constructor_on_object _ Hobj Hnone), Hsw.
Qed.

(** C3, amended. With no store instance supplied and the store type
    ['auto'], the constructor takes the secure store when it can be built;
    when it cannot, the file store; when the file store fails with
    [ERR_MISSING_REQUIRED_PARAMETER], the memory store, whose own failure
    is then the constructor's.  A file store that
    fails with any other error makes the constructor fail with that error
    even under ['auto'].  With the explicit type ['secure'] or ['file'] the
    error of the store's constructor is the constructor's error. *)
Theorem constructor_store_selection (opts : JsVal) :
  isObject opts = true →
  truthy (getp opts "tokenStore") = false →
  (tokenStoreType_of opts = JStr "auto" →
     (∀ s, new_ SecureStore opts = Return s →
           ∃ this, constructor opts = Return this ∧ tokenStore this = s)
     ∧ (∀ e1 s, new_ SecureStore opts = Throw e1 →
                new_ FileStore opts = Return s →
                ∃ this, constructor opts = Return this ∧ tokenStore this = s)
     ∧ (∀ e1 e2 s, new_ SecureStore opts = Throw e1 →
                   new_ FileStore opts = Throw e2 →
                   code_is e2 "ERR_MISSING_REQUIRED_PARAMETER" = true →
                   new_ MemoryStore opts = Return s →
                   ∃ this, constructor opts = Return this ∧ tokenStore this = s)
     ∧ (∀ e1 e2 e3, new_ SecureStore opts = Throw e1 →
                    new_ FileStore opts = Throw e2 →
                    code_is e2 "ERR_MISSING_REQUIRED_PARAMETER" = true →
                    new_ MemoryStore opts = Throw e3 →
                    constructor opts = Throw e3)
     ∧ (∀ e1 e2, new_ SecureStore opts = Throw e1 →
                 new_ FileStore opts = Throw e2 →
                 code_is e2 "ERR_MISSING_REQUIRED_PARAMETER" = false →
                 constructor opts = Throw e2))
  ∧ (tokenStoreType_of opts = JStr "secure" →
     ∀ e, new_ SecureStore opts = Throw e → constructor opts = Throw e)
  ∧ (tokenStoreType_of opts = JStr "file" →
     ∀ e, new_ FileStore opts = Throw e → constructor opts = Throw e).
Proof.
  intros Hobj Hnone. split; [|split].
  - intros Hauto. repeat split.
    + intros s Hs. apply constructor_store; try done.
      rewrite Hauto. unfold switch_tokenStoreType, case_secure. simpl.
      by rewrite Hs.
    + intros e1 s He1 Hs. apply constructor_store; try done.
      rewrite Hauto. unfold switch_tokenStoreType, case_secure, case_file. simpl.
      by rewrite He1, Hs.
    + intros e1 e2 s He1 He2 Hcode Hs. apply constructor_store; try done.
      rewrite Hauto.
      unfold switch_tokenStoreType, case_secure, case_file, case_memory. simpl.
      by rewrite He1, He2, Hcode.
    + intros e1 e2 e3 He1 He2 Hcode He3. apply constructor_throws; try done.
      rewrite Hauto.
      unfold switch_tokenStoreType, case_secure, case_file, case_memory. simpl.
      by rewrite He1, He2, Hcode.
    + intros e1 e2 He1 He2 Hcode. apply constructor_throws; try done.
      rewrite Hauto. unfold switch_tokenStoreType, case_secure, case_file. simpl.
      by rewrite He1, He2, Hcode.
  - intros Hsec e He. apply constructor_throws; try done.
    rewrite Hsec. unfold switch_tokenStoreType, case_secure. simpl.
    by rewrite He.
  - intros Hfile e He. apply constructor_throws; try done.
    rewrite Hfile. unfold switch_tokenStoreType, case_file. simpl.
    by rewrite He.
Qed.

(** C10, amended. With no store instance supplied and a store type, as
    the constructor reads it, that is none of ['auto'], ['secure'], ['file']
    and ['memory'] (so [null] too), the constructor succeeds and leaves the
    instance without a token store; [list] then returns an empty sequence,
    [getAccount] returns [null] and [revoke], called with an argument that
    is not [null], returns an empty sequence. *)
Theorem constructor_unknown_store_type (opts : JsVal) :
  isObject opts = true →
  truthy (getp opts "tokenStore") = false →
  tokenStoreType_of opts ≠ JStr "auto" →
  tokenStoreType_of opts ≠ JStr "secure" →
  tokenStoreType_of opts ≠ JStr "file" →
  tokenStoreType_of opts ≠ JStr "memory" →
  ∃ this,
    constructor opts = Return this
    ∧ tokenStore this = JNull
    ∧ (∀ w, list_ this w = (Return (array_of []), w))
    ∧ (∀ arg w, getAccount this arg w
                = (Return JNull, logged "Cannot get account, no token store" w))
    ∧ (∀ arg w,
         arg ≠ JNull →
         revoke this arg w
         = (Return (array_of []), logged "No token store, returning empty array" w)).
Proof.
  intros Hobj Hnone Hauto Hsec Hfile Hmem.
  destruct (constructor_store opts JNull Hobj Hnone) as (this & Hthis & Hstore).
  { unfold switch_tokenStoreType.
    by rewrite !is_str_false. }
  exists this. split; [done|]. split; [done|].
  split; [|split].
  - intros w. unfold list_. by rewrite Hstore.
  - intros arg w. unfold getAccount. by rewrite Hstore.
  - intros arg w Hnull. rewrite (revoke_bound _ _ _ Hnull).
    unfold revoke_body. by rewrite Hstore.
Qed.

(** *** The authenticator chosen *)

Lemma createAuthenticator_object (opts a : JsVal) :
  createAuthenticator opts = Return a → isObject a = true.
Proof.
  unfold createAuthenticator.
  destruct (get_prop (default_param opts) "authenticator") as [v|e]; simpl; [|done].
  destruct (truthy v).
  - destruct (instanceof v ClsAuthenticator) eqn:Hinst; simpl; [|done].
    intros [= <-]. by destruct v as [| | | | |xs props|c props].
  - unfold new_.
    repeat match goal with
           | |- context [if ?b then _ else _] => destruct b
           end;
      match goal with
      | |- context [bindO ?m _] => destruct m; simpl; [|done]
      end; by intros [= <-].
Qed.

(** C4, amended. On an options object the authenticator is chosen in a
    fixed order and the first match wins.  A supplied [authenticator] that is
    an [Authenticator] instance is returned as it is, whatever else is
    supplied; a supplied value that is not one is rejected with an error.
    With none supplied: a user name that is a non-empty string with a
    password that is a string gives [new OwnerPassword(opts)]; otherwise a
    client secret that is a non-empty string gives [new ClientSecret(opts)];
    otherwise a secret file path that is a non-empty string gives
    [new SignedJWT(opts)]; otherwise [new PKCE(opts)]. *)
Theorem createAuthenticator_selection (opts : JsVal) :
  isObject opts = true →
  (truthy (getp opts "authenticator") = true →
   instanceof (getp opts "authenticator") ClsAuthenticator = true →
   createAuthenticator opts = Return (getp opts "authenticator"))
  ∧ (truthy (getp opts "authenticator") = true →
     instanceof (getp opts "authenticator") ClsAuthenticator = false →
     ∃ e, createAuthenticator opts = Throw e)
  ∧ (truthy (getp opts "authenticator") = false →
     username_password_present opts = true →
     createAuthenticator opts = new_ OwnerPassword opts)
  ∧ (truthy (getp opts "authenticator") = false →
     username_password_present opts = false →
     clientSecret_present opts = true →
     createAuthenticator opts = new_ ClientSecret opts)
  ∧ (truthy (getp opts "authenticator") = false →
     username_password_present opts = false →
     clientSecret_present opts = false →
     secretFile_present opts = true →
     createAuthenticator opts = new_ SignedJWT opts)
  ∧ (truthy (getp opts "authenticator") = false →
     username_password_present opts = false →
     clientSecret_present opts = false →
     secretFile_present opts = false →
     createAuthenticator opts = new_ PKCE opts).
Proof.
  intros Hobj.
  unfold createAuthenticator, username_password_present, clientSecret_present,
    secretFile_present.
  rewrite (default_param_object _ Hobj), (get_prop_object _ _ Hobj). simpl.
  repeat split.
  - by intros -> ->.
  - intros -> ->. simpl. by eexists.
  - by intros -> ->.
  - by intros -> -> ->.
  - by intros -> -> -> ->.
  - by intros -> -> -> ->.
Qed.

(** *** The defaults applied *)

(** What [applyDefaults] leaves in the options when it returns, and what it
    takes for it to return. *)
Lemma applyDefaults_returns (this : Auth) (arg opts' : JsVal) :
  applyDefaults this arg = Return opts' →
  let opts := default_param arg in
  let env_ := effective_env this opts in
  isObject opts = true
  ∧ isObject opts' = true
  ∧ truthy (environments_at env_) = true
  ∧ getp opts' "baseUrl"
    = getp opts "baseUrl" ||| baseUrl this ||| getp (environments_at env_) "baseUrl"
  ∧ getp opts' "clientId" = getp opts "clientId" ||| clientId this
  ∧ getp opts' "clientSecret" = getp opts "clientSecret" ||| clientSecret this
  ∧ getp opts' "env" = env_
  ∧ getp opts' "messages" = getp opts "messages" ||| messages this
  ∧ getp opts' "password" = getp opts "password" ||| password this
  ∧ getp opts' "realm" = getp opts "realm" ||| realm this
  ∧ getp opts' "secretFile" = getp opts "secretFile" ||| secretFile this
  ∧ getp opts' "serviceAccount" = getp opts "serviceAccount" ||| serviceAccount this
  ∧ getp opts' "tokenStore" = tokenStore this
  ∧ getp opts' "username" = getp opts "username" ||| username this
  ∧ getp opts' "url" = getp opts "url"
  ∧ getp opts' "authenticator" = getp opts "authenticator".
Proof.
  unfold applyDefaults, effective_env. simpl.
  set (opts := default_param arg).
  destruct (negb (truthy opts) || negb (String.eqb (typeof opts) "object")) eqn:Hguard;
    [done|].
  assert (Hobj : isObject opts = true).
  { destruct opts; simpl in Hguard |- *; try done;
      by rewrite orb_true_r in Hguard. }
  destruct (truthy (environments_at _)) eqn:Henv; simpl; [|done].
  intros [= <-].
  split; [done|]. split; [by rewrite !isObject_setp|]. split; [done|].
  repeat split;
    repeat (rewrite getp_setp_ne by done);
    try (rewrite getp_setp_eq by (rewrite ?isObject_setp; done));
    repeat (rewrite getp_setp_ne by done); done.
Qed.

(** On an object, a known environment is all [applyDefaults] needs. *)
Lemma applyDefaults_known_env (this : Auth) (opts : JsVal) :
  isObject opts = true →
  truthy (environments_at (effective_env this opts)) = true →
  ∃ opts', applyDefaults this opts = Return opts'.
Proof.
  intros Hobj Henv. unfold applyDefaults.
  rewrite (default_param_object _ Hobj), (object_guard _ Hobj).
  fold (effective_env this opts). rewrite Henv. simpl. by eexists.
Qed.

Lemma applyDefaults_unknown_env (this : Auth) (opts : JsVal) :
  isObject opts = true →
  truthy (environments_at (effective_env this opts)) = false →
  applyDefaults this opts
  = Throw (E.INVALID_VALUE
             ("Invalid environment: " ++ to_string (getp opts "env" ||| env this))).
Proof.
  intros Hobj Henv. unfold applyDefaults.
  rewrite (default_param_object _ Hobj), (object_guard _ Hobj).
  fold (effective_env this opts). by rewrite Henv.
Qed.

(** A name that the table does not define and does not inherit is one it
    yields nothing for. *)
Lemma environments_at_missing (env_ : JsVal) :
  environments !! to_string env_ = None →
  inherited (to_string env_) = JUndefined →
  truthy (environments_at env_) = false.
Proof. intros Hnone Hinh. unfold environments_at. by rewrite Hnone, Hinh. Qed.

(** C5, amended. [login], [serverInfo] and, on an instance with a token
    store, [getAccount] apply the defaults before anything else.  When the
    environment name the call resolves (per call, else of the instance, else
    [prod]) is in the environment table, every defaulted option is the
    per-call value when that is truthy, else the instance's value, and for
    [baseUrl] else the environment's base URL, and the operation runs on
    these options.  When [environments[env]] is falsy, as for every name
    the table neither defines nor inherits, the operation fails with
    [INVALID_VALUE] and leaves the world as it was. *)
Theorem defaults_precedence (this : Auth) (opts : JsVal) (w : World) :
  isObject opts = true →
  (truthy (environments_at (effective_env this opts)) = true →
   ∃ opts',
     applyDefaults this opts = Return opts'
     ∧ getp opts' "baseUrl"
       = getp opts "baseUrl" ||| baseUrl this
         ||| getp (environments_at (effective_env this opts)) "baseUrl"
     ∧ getp opts' "clientId" = getp opts "clientId" ||| clientId this
     ∧ getp opts' "clientSecret" = getp opts "clientSecret" ||| clientSecret this
     ∧ getp opts' "env" = effective_env this opts
     ∧ getp opts' "messages" = getp opts "messages" ||| messages this
     ∧ getp opts' "password" = getp opts "password" ||| password this
     ∧ getp opts' "realm" = getp opts "realm" ||| realm this
     ∧ getp opts' "secretFile" = getp opts "secretFile" ||| secretFile this
     ∧ getp opts' "serviceAccount"
       = getp opts "serviceAccount" ||| serviceAccount this
     ∧ getp opts' "username" = getp opts "username" ||| username this
     ∧ login this opts w
       = (await authenticator ← liftO (createAuthenticator opts');
          Authenticator_login authenticator opts') w
     ∧ serverInfo this opts w
       = (await url ← (if negb (truthy (getp opts' "url"))
                       then liftO (let! endpoints := getEndpoints opts' in
                                   get_prop endpoints "wellKnown")
                       else ret (getp opts' "url"));
          getServerInfo url) w
     ∧ (truthy (tokenStore this) = true →
        getAccount this opts w
        = (await authenticator ← liftO (createAuthenticator opts');
           await hash ← liftO (get_prop authenticator "hash");
           TokenStore_get (tokenStore this) (setp opts' "hash" hash)) w))
  ∧ (truthy (environments_at (effective_env this opts)) = false →
     ∃ msg,
       login this opts w = (Throw (E.INVALID_VALUE msg), w)
       ∧ serverInfo this opts w = (Throw (E.INVALID_VALUE msg), w)
       ∧ (truthy (tokenStore this) = true →
          getAccount this opts w = (Throw (E.INVALID_VALUE msg), w)))
  ∧ (environments !! to_string (effective_env this opts) = None →
     inherited (to_string (effective_env this opts)) = JUndefined →
     truthy (environments_at (effective_env this opts)) = false).
Proof.
  intros Hobj. split; [|split; [|apply environments_at_missing]].
  - intros Henv.
    destruct (applyDefaults_known_env this opts Hobj Henv) as [opts' Hret].
    pose proof (applyDefaults_returns this opts opts' Hret) as Hfacts.
    cbv zeta in Hfacts. rewrite !(default_param_object _ Hobj) in Hfacts.
    destruct Hfacts as (_ & _ & _ & Hb & Hci & Hcs & He & Hm & Hp & Hr & Hsf
                        & Hsa & _ & Hu & _ & _).
    exists opts'. repeat split; try done.
    + unfold login, bindM, liftO.
      by rewrite (default_param_object _ Hobj), Hret.
    + unfold serverInfo, bindM, liftO.
      by rewrite (default_param_object _ Hobj), Hret.
    + intros Hstore. unfold getAccount, bindM, liftO.
      by rewrite (default_param_object _ Hobj), Hstore, Hret.
  - intros Hunknown. eexists. repeat split.
    + unfold login, bindM, liftO.
      by rewrite (default_param_object _ Hobj),
           (applyDefaults_unknown_env _ _ Hobj Hunknown).
    + unfold serverInfo, bindM, liftO.
      by rewrite (default_param_object _ Hobj),
           (applyDefaults_unknown_env _ _ Hobj Hunknown).
    + intros Hstore. unfold getAccount, bindM, liftO.
      by rewrite (default_param_object _ Hobj), Hstore,
           (applyDefaults_unknown_env _ _ Hobj Hunknown).
Qed.

(** C6. On an instance with no token store [getAccount] returns [null]
    and throws nothing.  With a store, and options from which a login would
    get its authenticator, [getAccount] builds that same authenticator,
    hence the same hash, and returns what the store's [get] returns for the
    options carrying that hash: [null], and no error, when the store finds
    no entry. *)
Theorem getAccount_lookup (this : Auth) (arg : JsVal) (w : World) :
  (truthy (tokenStore this) = false →
   getAccount this arg w
   = (Return JNull, logged "Cannot get account, no token store" w))
  ∧ (truthy (tokenStore this) = true →
     ∀ opts' authenticator,
       applyDefaults this (default_param arg) = Return opts' →
       createAuthenticator opts' = Return authenticator →
       login this arg w = Authenticator_login authenticator opts' w
       ∧ getAccount this arg w
         = TokenStore_get (tokenStore this)
             (setp opts' "hash" (getp authenticator "hash")) w
       ∧ ∀ w', TokenStore_get (tokenStore this)
                 (setp opts' "hash" (getp authenticator "hash")) w
               = (Return JNull, w') →
               getAccount this arg w = (Return JNull, w')).
Proof.
  split.
  - intros Hnone. unfold getAccount. by rewrite Hnone.
  - intros Hstore opts' authenticator Hdef Hauth.
    assert (Hget : getAccount this arg w
                   = TokenStore_get (tokenStore this)
                       (setp opts' "hash" (getp authenticator "hash")) w).
    { unfold getAccount, bindM, liftO. rewrite Hstore, Hdef, Hauth. simpl.
      by rewrite (get_prop_object _ _ (createAuthenticator_object _ _ Hauth)). }
    split; [|split].
    + unfold login, bindM, liftO. by rewrite Hdef, Hauth.
    + exact Hget.
    + intros w' Hnull. by rewrite Hget.
Qed.

(** C8. [serverInfo] applies the defaults; the URL it then hands to the
    discovery helper is the [url] option of the call when that is given,
    and otherwise the [wellKnown] endpoint that [getEndpoints] derives from
    the options with the resolved base URL and realm. *)
Theorem serverInfo_discovery_url (this : Auth) (arg opts' : JsVal) (w : World) :
  applyDefaults this (default_param arg) = Return opts' →
  getp opts' "baseUrl"
  = getp (default_param arg) "baseUrl" ||| baseUrl this
    ||| getp (environments_at (effective_env this (default_param arg))) "baseUrl"
  ∧ getp opts' "realm" = getp (default_param arg) "realm" ||| realm this
  ∧ (truthy (getp (default_param arg) "url") = true →
     serverInfo this arg w = getServerInfo (getp (default_param arg) "url") w)
  ∧ (truthy (getp (default_param arg) "url") = false →
     ∀ endpoints wellKnown,
       getEndpoints opts' = Return endpoints →
       get_prop endpoints "wellKnown" = Return wellKnown →
       serverInfo this arg w = getServerInfo wellKnown w).
Proof.
  intros Hdef.
  pose proof (applyDefaults_returns this (default_param arg) opts' Hdef) as Hfacts.
  assert (Hidem : default_param (default_param arg) = default_param arg)
    by (by destruct arg).
  cbv zeta in Hfacts. rewrite !Hidem in Hfacts.
  destruct Hfacts as (_ & _ & _ & Hb & _ & _ & _ & _ & _ & Hr & _ & _ & _ & _
                      & Hurl & _).
  split; [done|]. split; [done|]. split.
  - intros Hgiven. unfold serverInfo, bindM, liftO, ret.
    by rewrite Hdef, Hurl, Hgiven.
  - intros Hnot endpoints wellKnown Hep Hwk. unfold serverInfo, bindM, liftO.
    by rewrite Hdef, Hurl, Hnot, Hep; simpl; rewrite Hwk.
Qed.

End Facade.

(** ** The properties on concrete runs

    Each run below is on the reference implementation of the imports. *)


(** C7 on two instances: without a store the listing is empty, with the
    memory store it is the store's. *)
Lemma list_returns_store_listing_witness :
  @list_ plain auth_no_store world_cid = (Return (array_of []), world_cid)
  ∧ @list_ plain auth_memory world_cid
    = (Return (array_of [entry_cid]), world_cid).
Proof.
  split.
  - apply (proj1 (@list_returns_store_listing plain auth_no_store world_cid)).
    reflexivity.
  - rewrite (proj2 (@list_returns_store_listing plain auth_memory world_cid) eq_refl).
    reflexivity.
Defined.

(** C9, amended, on [new Auth({ tokenStoreType: null }).revoke({ accounts: 3 })]
    and on the same instance's [revoke()]. *)
Lemma revoke_without_store_witness :
  @revoke plain auth_no_store args_3 world_cid
  = (Return (array_of []),
     mkWorld ["No token store, returning empty array"] [] [entry_cid])
  ∧ @revoke plain auth_no_store JUndefined world_cid
    = (Return (array_of []),
       mkWorld ["No token store, returning empty array"] [] [entry_cid]).
Proof.
  split.
  - apply (@revoke_without_store plain auth_no_store args_3 world_cid);
      [discriminate|reflexivity].
  - apply (@revoke_without_store plain auth_no_store JUndefined world_cid);
      [discriminate|reflexivity].
Defined.

(** C9 as stated fails: on the instance [new Auth({ tokenStoreType: null })],
    which has no store, [revoke(null)] does not return an empty sequence:
    the parameter pattern cannot bind [null], the call fails with the
    runtime's error, which carries no code, and nothing is logged. *)
Lemma revoke_null_without_store :
  @constructor plain (object [("tokenStoreType", JNull)]) = Return auth_no_store
  ∧ truthy (tokenStore auth_no_store) = false
  ∧ @revoke plain auth_no_store JNull world_cid = (Throw null_argument, world_cid)
  ∧ err_code null_argument = None.
Proof.
  split; [vm_compute; reflexivity|]. repeat split.
Qed.

(** C2, amended, on [new Auth().revoke({ accounts: 3 })]. *)
Lemma revoke_rejects_invalid_accounts_witness :
  ∃ msg,
    @revoke plain auth_memory args_3 world_cid
    = (Throw (E.INVALID_ARGUMENT msg), world_cid).
Proof.
  apply (@revoke_rejects_invalid_accounts plain auth_memory args_3 world_cid).
  - discriminate.
  - reflexivity.
  - reflexivity.
  - vm_compute. discriminate.
  - reflexivity.
Defined.

(** C2 as stated fails: the instance [new Auth({ tokenStoreType: null })]
    has no store, and its [revoke({ accounts: 3 })], with [all] not set and
    [accounts] neither a string nor an array, returns an empty sequence where
    the claim has it fail with [INVALID_ARGUMENT].  And on an instance with
    a store [revoke(null)], which sets no [all] and gives no [accounts],
    fails as the parameter binds, with the runtime's error, which carries no
    code and is no [INVALID_ARGUMENT]. *)
Lemma revoke_invalid_accounts_without_store :
  @constructor plain (object [("tokenStoreType", JNull)]) = Return auth_no_store
  ∧ truthy (all_of args_3) = false
  ∧ typeof (accounts_of args_3) ≠ "string"
  ∧ isArray (accounts_of args_3) = false
  ∧ fst (@revoke plain auth_no_store args_3 world_cid) = Return (array_of [])
  ∧ truthy (tokenStore auth_memory) = true
  ∧ @revoke plain auth_memory JNull world_cid = (Throw null_argument, world_cid)
  ∧ err_code null_argument = None.
Proof.
  split; [vm_compute; reflexivity|].
  split; [reflexivity|].
  split; [vm_compute; discriminate|].
  repeat split.
Qed.

(** C3, amended, on [new Auth()] on a host without a vault: the secure
    store fails, the file store fails for want of a directory, the memory
    store is taken. *)
Lemma constructor_store_selection_witness :
  ∃ this, @constructor plain empty_object = Return this
          ∧ tokenStore this = JObj ClsMemoryStore ∅.
Proof.
  destruct (@constructor_store_selection plain empty_object eq_refl eq_refl)
    as [Hauto _].
  destruct (Hauto eq_refl) as (_ & _ & Hmemory & _).
  exact (Hmemory _ _ _ eq_refl eq_refl eq_refl eq_refl).
Defined.

(** C3 as stated fails: under ['auto'], on a host without a vault whose
    disk refuses the storage directory, the secure store fails, the file
    store fails with [EACCES], and the constructor fails with that error
    where the claim has it fall back to the memory store. *)
Lemma auto_file_failure_propagates :
  let opts := object [ ("tokenStoreType", JStr "auto");
                       ("tokenStoreDir", JStr "/var/tokens") ] in
  let eacces := mkError (Some "EACCES") "permission denied" in
  tokenStoreType_of opts = JStr "auto"
  ∧ truthy (getp opts "tokenStore") = false
  ∧ (∃ e, @new_ (@SecureStore readonly) opts = Throw e)
  ∧ @new_ (@FileStore readonly) opts = Throw eacces
  ∧ @constructor readonly opts = Throw eacces.
Proof.
  simpl. split; [reflexivity|]. split; [reflexivity|].
  split; [eexists; reflexivity|]. split; vm_compute; reflexivity.
Qed.

(** C10, amended, on [new Auth({ tokenStoreType: null })]. *)
Lemma constructor_unknown_store_type_witness :
  ∃ this,
    @constructor plain (object [("tokenStoreType", JNull)]) = Return this
    ∧ tokenStore this = JNull
    ∧ (∀ w, @list_ plain this w = (Return (array_of []), w))
    ∧ (∀ arg w, @getAccount plain this arg w
                = (Return JNull, logged "Cannot get account, no token store" w))
    ∧ (∀ arg w,
         arg ≠ JNull →
         @revoke plain this arg w
         = (Return (array_of []), logged "No token store, returning empty array" w)).
Proof.
  apply (@constructor_unknown_store_type plain (object [("tokenStoreType", JNull)])).
  - reflexivity.
  - reflexivity.
  - vm_compute. discriminate.
  - vm_compute. discriminate.
  - vm_compute. discriminate.
  - vm_compute. discriminate.
Defined.

(** C10 as stated fails: the instance that the store type [null] leaves
    without a store does not take the no-store path of [revoke] on
    [revoke(null)]: the call fails as the parameter binds, before the guard,
    and logs nothing. *)
Lemma unknown_store_type_revoke_null :
  tokenStoreType_of (object [("tokenStoreType", JNull)]) = JNull
  ∧ @constructor plain (object [("tokenStoreType", JNull)]) = Return auth_no_store
  ∧ tokenStore auth_no_store = JNull
  ∧ @revoke plain auth_no_store JNull empty_world = (Throw null_argument, empty_world)
  ∧ @revoke plain auth_no_store JNull empty_world
    ≠ (Return (array_of []),
       logged "No token store, returning empty array" empty_world).
Proof.
  split; [reflexivity|]. split; [vm_compute; reflexivity|].
  split; [reflexivity|]. split; [reflexivity|]. discriminate.
Qed.

(** C4, amended, on options with every kind of credential: the user name
    and password win. *)
Lemma createAuthenticator_selection_witness :
  @createAuthenticator plain opts_all_credentials
  = @new_ (@OwnerPassword plain) opts_all_credentials.
Proof.
  destruct (@createAuthenticator_selection plain opts_all_credentials eq_refl)
    as (_ & _ & Howner & _).
  apply Howner; reflexivity.
Defined.

(** C4 as stated fails: for the options [{ authenticator: 'pkce' }] the
    supplied value is not returned, and none of the four authenticators is
    built either: the call throws. *)
Lemma createAuthenticator_rejects_foreign_authenticator :
  isObject opts_foreign_authenticator = true
  ∧ getp opts_foreign_authenticator "authenticator" = JStr "pkce"
  ∧ @createAuthenticator plain opts_foreign_authenticator
    = Throw (TypeError "E.INVALID_ARUGMENT is not a function")
  ∧ @createAuthenticator plain opts_foreign_authenticator
    ≠ Return (getp opts_foreign_authenticator "authenticator")
  ∧ @createAuthenticator plain opts_foreign_authenticator
    ≠ @new_ (@OwnerPassword plain) opts_foreign_authenticator
  ∧ @createAuthenticator plain opts_foreign_authenticator
    ≠ @new_ (@ClientSecret plain) opts_foreign_authenticator
  ∧ @createAuthenticator plain opts_foreign_authenticator
    ≠ @new_ (@SignedJWT plain) opts_foreign_authenticator
  ∧ @createAuthenticator plain opts_foreign_authenticator
    ≠ @new_ (@PKCE plain) opts_foreign_authenticator.
Proof.
  split; [reflexivity|]. split; [reflexivity|]. split; [reflexivity|].
  repeat split; vm_compute; discriminate.
Qed.

(** C5, amended, on [login({ baseUrl, realm })] for an instance with a
    base URL and a client id of its own: the call's base URL wins, the
    instance's client id fills in, the environment is [prod]; and on
    [serverInfo({ env: 'bogus' })], which fails before any request. *)
Lemma defaults_precedence_witness :
  (∃ opts',
     @applyDefaults plain auth_baseUrl opts_baseUrl = Return opts'
     ∧ getp opts' "baseUrl" = JStr "https://call.example.com"
     ∧ getp opts' "clientId" = JStr "cid"
     ∧ getp opts' "env" = JStr "prod")
  ∧ (∃ msg,
       @serverInfo plain auth_memory (object [("env", JStr "bogus")]) world_cid
       = (Throw (E.INVALID_VALUE msg), world_cid)).
Proof.
  split.
  - destruct (@defaults_precedence plain auth_baseUrl opts_baseUrl empty_world eq_refl)
      as [Hknown _].
    destruct (Hknown eq_refl)
      as (opts' & Hret & Hb & Hci & _ & He & _).
    exists opts'. split; [exact Hret|].
    split; [rewrite Hb; reflexivity|].
    split; [rewrite Hci; reflexivity|].
    rewrite He. reflexivity.
  - destruct (@defaults_precedence plain auth_memory (object [("env", JStr "bogus")])
                world_cid eq_refl) as (_ & Hunknown & _).
    destruct (Hunknown eq_refl) as (msg & _ & Hinfo & _).
    exists msg. exact Hinfo.
Defined.

(** C5 as stated fails for [revoke] and for [getAccount] without a store.
    The instance's environment [bogus] is not in the table, and the call
    names none; [revoke({ all: true })] does not look at it, removes the
    entry and sends the logout request, and [getAccount()] on an instance
    without a store returns [null]: neither fails with [INVALID_VALUE].
    Nor does a call that does apply the defaults fail on every name that is
    not in the table: [constructor] is not, and [serverInfo] with that
    environment goes on to request the discovery document. *)
Lemma unknown_env_not_checked :
  environments (Imports := plain)
    !! to_string (effective_env auth_bogus_env empty_object) = None
  ∧ @revoke plain auth_bogus_env args_all world_cid
    = (Return (array_of [entry_cid]),
       mkWorld ["Successfully logged out cid 200 (https://login.example.com, r)"]
               [logout_url_cid] [])
  ∧ effective_env auth_bogus_env_no_store empty_object = JStr "bogus"
  ∧ fst (@getAccount plain auth_bogus_env_no_store empty_object world_cid)
    = Return JNull
  ∧ environments (Imports := plain)
      !! to_string (effective_env auth_memory opts_env_constructor) = None
  ∧ (∃ opts', @applyDefaults plain auth_memory opts_env_constructor = Return opts'
              ∧ getp opts' "env" = JStr "constructor"
              ∧ getp opts' "baseUrl" = JUndefined)
  ∧ w_requests (snd (@serverInfo plain auth_memory opts_env_constructor empty_world))
    = [ "undefined/auth/realms/undefined/.well-known/openid-configuration" ].
Proof.
  split; [vm_compute; reflexivity|].
  split; [vm_compute; reflexivity|].
  split; [vm_compute; reflexivity|].
  split; [vm_compute; reflexivity|].
  split; [vm_compute; reflexivity|].
  split; [eexists; split; [reflexivity|split; vm_compute; reflexivity]|].
  vm_compute; reflexivity.
Qed.

(** C6 on the memory store holding the entry that
    [login({ clientId: 'cid', realm: 'r' })] persisted: [getAccount] with
    the same options finds it under the login's hash, with the options of
    another client the store finds nothing and the call returns [null], and
    on an instance without a store the call returns [null]. *)
Lemma getAccount_lookup_witness :
  @login plain auth_memory opts_cid empty_world = (Return entry_cid, world_cid)
  ∧ @getAccount plain auth_memory opts_cid world_cid = (Return entry_cid, world_cid)
  ∧ @getAccount plain auth_memory opts_other world_cid = (Return JNull, world_cid)
  ∧ @getAccount plain auth_no_store opts_other world_cid
    = (Return JNull, logged "Cannot get account, no token store" world_cid).
Proof.
  destruct (@getAccount_lookup plain auth_memory opts_cid world_cid)
    as [_ Hfound].
  destruct (@getAccount_lookup plain auth_memory opts_other world_cid)
    as [_ Hmissing].
  destruct (@getAccount_lookup plain auth_no_store opts_other world_cid)
    as [Hnone _].
  split; [vm_compute; reflexivity|].
  split; [|split; [|apply Hnone; reflexivity]].
  - edestruct (Hfound eq_refl) as (_ & Hget & _).
    + reflexivity.
    + reflexivity.
    + rewrite Hget. vm_compute. reflexivity.
  - edestruct (Hmissing eq_refl) as (_ & _ & Hnull).
    + reflexivity.
    + reflexivity.
    + apply Hnull. vm_compute. reflexivity.
Defined.

(** C8 on [serverInfo({ url })]: the named URL is the one discovered. *)
Lemma serverInfo_discovery_url_witness :
  @serverInfo plain auth_memory opts_url empty_world
  = @getServerInfo plain (getp opts_url "url") empty_world.
Proof.
  edestruct (@serverInfo_discovery_url plain auth_memory opts_url)
    as (_ & _ & Hgiven & _).
  - reflexivity.
  - apply Hgiven. reflexivity.
Defined.

(** C1. [revoke] does not log and swallow a transport failure of the
    logout request.  With no route to the identity provider,
    [revoke({ all: true })] removes the one entry from the store, the logout
    request is sent and fails in transport, and the call fails with that
    error instead of returning the removed entry; the entry is gone from the
    store and nothing is logged.  The sibling path does what the property
    asks: when the identity provider answers 500 the failure is logged and
    the removed entry returned. *)
Theorem revoke_fetch_rejection_propagates :
  @TokenStore_clear offline (tokenStore auth_memory) (baseUrl_of args_all) world_cid
  = (Return (array_of [entry_cid]), mkWorld [] [] [])
  ∧ @logout_url offline entry_cid = Return logout_url_cid
  ∧ network (Imports := offline) logout_url_cid
    = Throw (mkError (Some "ECONNREFUSED") "request failed, reason: connect ECONNREFUSED")
  ∧ @revoke offline auth_memory args_all world_cid
    = (Throw (mkError (Some "ECONNREFUSED") "request failed, reason: connect ECONNREFUSED"),
       mkWorld [] [logout_url_cid] [])
  ∧ @revoke failing_idp auth_memory args_all world_cid
    = (Return (array_of [entry_cid]),
       mkWorld ["Failed to log out cid 500 (https://login.example.com, r)"]
               [logout_url_cid] []).
Proof.
  repeat split; vm_compute; reflexivity.
Qed.

(** ** Further properties of the facade *)

Section FacadeMore.
Context `{Imports}.

(** *** Arguments that are not objects *)

Lemma non_object_guard (arg : JsVal) :
  arg ≠ JUndefined →
  isObject arg = false →
  negb (truthy (default_param arg))
  || negb (String.eqb (typeof (default_param arg)) "object") = true.
Proof.
  intros Hdef Hobj. destruct arg; simpl in *; try done.
  all: by rewrite orb_true_r.
Qed.

(** X1. [new Auth(arg)] with an argument that is given and is not an
    object ([null], a boolean, a number, a string) throws
    [INVALID_ARGUMENT], whatever the stores would do. *)
Theorem constructor_rejects_non_object (arg : JsVal) :
  arg ≠ JUndefined →
  isObject arg = false →
  constructor arg = Throw (E.INVALID_ARGUMENT "Expected options to be an object").
Proof.
  intros Hdef Hobj. unfold constructor.
  by rewrite (non_object_guard _ Hdef Hobj).
Qed.

(** X2. [login], [serverInfo] and, with a token store, [getAccount] called
    with an argument that is given and is not an object fail with
    [INVALID_ARGUMENT] and leave the world as it was; the check comes before
    the one on the environment, so the instance's environment does not
    matter. *)
Theorem operations_reject_non_object (this : Auth) (arg : JsVal) (w : World) :
  arg ≠ JUndefined →
  isObject arg = false →
  let e := E.INVALID_ARGUMENT "Expected options to be an object" in
  applyDefaults this arg = Throw e
  ∧ login this arg w = (Throw e, w)
  ∧ serverInfo this arg w = (Throw e, w)
  ∧ (truthy (tokenStore this) = true → getAccount this arg w = (Throw e, w)).
Proof.
  intros Hdef Hobj e.
  assert (Happly : ∀ v, default_param v = default_param arg →
                        applyDefaults this v = Throw e).
  { intros v Hv. unfold applyDefaults. rewrite Hv.
    by rewrite (non_object_guard _ Hdef Hobj). }
  assert (Hidem : default_param (default_param arg) = default_param arg)
    by (by destruct arg).
  split; [by apply Happly|].
  split; [|split].
  - unfold login, bindM, liftO. by rewrite (Happly _ Hidem).
  - unfold serverInfo, bindM, liftO. by rewrite (Happly _ Hidem).
  - intros Hstore. unfold getAccount, bindM, liftO.
    by rewrite Hstore, (Happly _ Hidem).
Qed.

(** *** The store the constructor is given or told to build *)

(** X3. A truthy [tokenStore] option decides alone: when it is a
    [TokenStore] instance it becomes the instance's store, whatever
    [tokenStoreType] says and whatever the store constructors would do;
    when it is not, the constructor throws [INVALID_PARAMETER]. *)
Theorem constructor_supplied_store (opts : JsVal) :
  isObject opts = true →
  truthy (getp opts "tokenStore") = true →
  (instanceof (getp opts "tokenStore") ClsTokenStore = true →
   ∃ this, constructor opts = Return this
           ∧ tokenStore this = getp opts "tokenStore")
  ∧ (instanceof (getp opts "tokenStore") ClsTokenStore = false →
     ∃ msg, constructor opts = Throw (E.INVALID_PARAMETER msg)).
Proof.
  intros Hobj Hgiven. unfold constructor.
  rewrite (default_param_object _ Hobj), (object_guard _ Hobj), Hgiven.
  split; intros ->; simpl; eexists; [split|]; reflexivity.
Qed.

(** X4. With no store supplied, an explicit store type builds that store
    and no other: ['memory'] gives the outcome of [new MemoryStore(opts)],
    store or error, and ['file'] and ['secure'] give the store their
    constructor returns. *)
Theorem constructor_explicit_store_type (opts : JsVal) :
  isObject opts = true →
  truthy (getp opts "tokenStore") = false →
  (tokenStoreType_of opts = JStr "memory" →
     (∀ s, new_ MemoryStore opts = Return s →
           ∃ this, constructor opts = Return this ∧ tokenStore this = s)
     ∧ (∀ e, new_ MemoryStore opts = Throw e → constructor opts = Throw e))
  ∧ (tokenStoreType_of opts = JStr "file" →
     ∀ s, new_ FileStore opts = Return s →
          ∃ this, constructor opts = Return this ∧ tokenStore this = s)
  ∧ (tokenStoreType_of opts = JStr "secure" →
     ∀ s, new_ SecureStore opts = Return s →
          ∃ this, constructor opts = Return this ∧ tokenStore this = s).
Proof.
  intros Hobj Hnone. split; [|split].
  - intros Hmem. split.
    + intros s Hs. apply constructor_store; try done.
      rewrite Hmem. unfold switch_tokenStoreType, case_memory. simpl. exact Hs.
    + intros e He. apply constructor_throws; try done.
      rewrite Hmem. unfold switch_tokenStoreType, case_memory. simpl. exact He.
  - intros Hfile s Hs. apply constructor_store; try done.
    rewrite Hfile. unfold switch_tokenStoreType, case_file. simpl. by rewrite Hs.
  - intros Hsec s Hs. apply constructor_store; try done.
    rewrite Hsec. unfold switch_tokenStoreType, case_secure. simpl. by rewrite Hs.
Qed.

(** What the constructor keeps of its options. *)
Lemma constructor_fields (arg : JsVal) (this : Auth) :
  constructor arg = Return this →
  let opts := default_param arg in
  baseUrl this = getp opts "baseUrl"
  ∧ clientId this = getp opts "clientId"
  ∧ clientSecret this = getp opts "clientSecret"
  ∧ env this = getp opts "env"
  ∧ messages this = getp opts "messages"
  ∧ password this = getp opts "password"
  ∧ realm this = getp opts "realm"
  ∧ secretFile this = getp opts "secretFile"
  ∧ serviceAccount this = getp opts "serviceAccount"
  ∧ username this = getp opts "username".
Proof.
  unfold constructor. simpl.
  destruct (negb (truthy (default_param arg)) || _); [done|].
  destruct (truthy (getp (default_param arg) "tokenStore")).
  - destruct (negb (instanceof _ _)); [done|].
    intros [= <-]. by repeat split.
  - destruct (switch_tokenStoreType _ _); simpl; [|done].
    intros [= <-]. by repeat split.
Qed.

(** X5. The options a constructor was given are the defaults of every
    later call: in the options [applyDefaults] resolves, each option is the
    call's value when it is truthy and else the value the constructor was
    given, and the store is the instance's. *)
Theorem constructor_options_become_defaults
    (given call : JsVal) (this : Auth) (opts' : JsVal) :
  constructor given = Return this →
  applyDefaults this call = Return opts' →
  getp opts' "clientId"
  = getp (default_param call) "clientId" ||| getp (default_param given) "clientId"
  ∧ getp opts' "clientSecret"
    = getp (default_param call) "clientSecret"
      ||| getp (default_param given) "clientSecret"
  ∧ getp opts' "env"
    = getp (default_param call) "env" ||| getp (default_param given) "env"
      ||| JStr "prod"
  ∧ getp opts' "baseUrl"
    = getp (default_param call) "baseUrl" ||| getp (default_param given) "baseUrl"
      ||| getp (environments_at (getp opts' "env")) "baseUrl"
  ∧ getp opts' "messages"
    = getp (default_param call) "messages" ||| getp (default_param given) "messages"
  ∧ getp opts' "password"
    = getp (default_param call) "password" ||| getp (default_param given) "password"
  ∧ getp opts' "realm"
    = getp (default_param call) "realm" ||| getp (default_param given) "realm"
  ∧ getp opts' "secretFile"
    = getp (default_param call) "secretFile"
      ||| getp (default_param given) "secretFile"
  ∧ getp opts' "serviceAccount"
    = getp (default_param call) "serviceAccount"
      ||| getp (default_param given) "serviceAccount"
  ∧ getp opts' "username"
    = getp (default_param call) "username" ||| getp (default_param given) "username"
  ∧ getp opts' "tokenStore" = tokenStore this.
Proof.
  intros Hnew Hdef.
  pose proof (constructor_fields _ _ Hnew) as Hfields. cbv zeta in Hfields.
  destruct Hfields as (Fb & Fci & Fcs & Fe & Fm & Fp & Fr & Fsf & Fsa & Fu).
  pose proof (applyDefaults_returns _ _ _ Hdef) as Hfacts. cbv zeta in Hfacts.
  unfold effective_env in Hfacts.
  destruct Hfacts as (_ & _ & _ & Hb & Hci & Hcs & He & Hm & Hp & Hr & Hsf
                      & Hsa & Hts & Hu & _ & _).
  rewrite Hb, Hci, Hcs, He, Hm, Hp, Hr, Hsf, Hsa, Hu, Hts.
  rewrite Fb, Fci, Fcs, Fe, Fm, Fp, Fr, Fsf, Fsa, Fu.
  by repeat split.
Qed.

(** *** What applyDefaults leaves in the options *)

Lemma jor_absorb (a b : JsVal) : (a ||| b) ||| b = a ||| b.
Proof. unfold jor. destruct (truthy a) eqn:Ha; [by rewrite Ha|]. by destruct (truthy b). Qed.

Lemma jor_absorb3 (a b c : JsVal) : (a ||| b ||| c) ||| b ||| c = a ||| b ||| c.
Proof.
  unfold jor.
  destruct (truthy a) eqn:Ha, (truthy b) eqn:Hb, (truthy c) eqn:Hc;
    repeat (progress (rewrite ?Ha, ?Hb, ?Hc)); done.
Qed.

Lemma jor_truthy_r (a b : JsVal) : truthy b = true → truthy (a ||| b) = true.
Proof. intros Hb. unfold jor. by destruct (truthy a) eqn:Ha. Qed.

Lemma jor_truthy_l (a b : JsVal) : truthy a = true → a ||| b = a.
Proof. intros Ha. unfold jor. by rewrite Ha. Qed.

Lemma setp_id (v : JsVal) (k : string) :
  has_own v k = true → k ≠ "length" → setp v k (getp v k) = v.
Proof.
  intros Hown Hk. destruct v as [| | | | |xs props|c props]; simpl in *; try done.
  - destruct (String.eqb_spec k "length"); [done|].
    destruct (props !! k) eqn:Hlook; [|done]. simpl. by rewrite insert_id.
  - destruct (props !! k) eqn:Hlook; [|done]. simpl. by rewrite insert_id.
Qed.

Lemma has_own_setp_eq (v : JsVal) (k : string) (x : JsVal) :
  isObject v = true → has_own (setp v k x) k = true.
Proof.
  intros Hobj. destruct v; simpl in *; try done; by rewrite lookup_insert_eq.
Qed.

Lemma has_own_setp (v : JsVal) (k k' : string) (x : JsVal) :
  has_own v k' = true → has_own (setp v k x) k' = true.
Proof.
  intros Hown. destruct v; simpl in *; try done;
    (destruct (decide (k = k')) as [->|Hne];
     [by rewrite lookup_insert_eq | by rewrite lookup_insert_ne]).
Qed.

(** The eleven options are properties of the object once [applyDefaults]
    has returned, the ones without a value as [undefined]. *)
Lemma applyDefaults_own (this : Auth) (arg opts' : JsVal) :
  applyDefaults this arg = Return opts' →
  Forall (λ k, has_own opts' k = true) defaulted_options.
Proof.
  intros Hdef.
  destruct (applyDefaults_returns _ _ _ Hdef) as (Hobj & _).
  revert Hdef. unfold applyDefaults.
  rewrite (object_guard _ Hobj). simpl.
  destruct (truthy (environments_at _)); simpl; [|done].
  intros [= <-].
  repeat constructor;
    repeat first [ apply has_own_setp_eq; by rewrite ?isObject_setp
                 | apply has_own_setp ].
Qed.

(** X6. [applyDefaults] is idempotent: applied to the options it has
    resolved, it succeeds and leaves every one of them as it is. *)
Theorem applyDefaults_idempotent (this : Auth) (arg opts' : JsVal) :
  applyDefaults this arg = Return opts' →
  applyDefaults this opts' = Return opts'.
Proof.
  intros Hdef.
  pose proof (applyDefaults_own _ _ _ Hdef) as Hown.
  unfold defaulted_options in Hown.
  repeat match type of Hown with
         | Forall _ (_ :: _) => apply Forall_cons in Hown as [? Hown]
         end.
  pose proof (applyDefaults_returns _ _ _ Hdef) as Hfacts. cbv zeta in Hfacts.
  set (opts := default_param arg) in *.
  destruct Hfacts as (_ & Hobj' & Henv & Hb & Hci & Hcs & He & Hm & Hp & Hr & Hsf
                      & Hsa & Hts & Hu & _ & _).
  assert (Heff : getp opts' "env" ||| env this ||| JStr "prod"
                 = effective_env this opts).
  { rewrite He. unfold effective_env. apply jor_absorb3. }
  unfold applyDefaults.
  rewrite (default_param_object _ Hobj'), (object_guard _ Hobj').
  cbv zeta. rewrite Heff, Henv. simpl negb. cbv iota.
  assert (Vb : getp opts' "baseUrl" ||| baseUrl this
               ||| getp (environments_at (effective_env this opts)) "baseUrl"
               = getp opts' "baseUrl") by (rewrite Hb; apply jor_absorb3).
  rewrite Vb, (setp_id opts' "baseUrl") by done.
  assert (Vci : getp opts' "clientId" ||| clientId this = getp opts' "clientId")
    by (rewrite Hci; apply jor_absorb).
  rewrite Vci, (setp_id opts' "clientId") by done.
  assert (Vcs : getp opts' "clientSecret" ||| clientSecret this
                = getp opts' "clientSecret") by (rewrite Hcs; apply jor_absorb).
  rewrite Vcs, (setp_id opts' "clientSecret") by done.
  rewrite <- He, (setp_id opts' "env") by done.
  assert (Vm : getp opts' "messages" ||| messages this = getp opts' "messages")
    by (rewrite Hm; apply jor_absorb).
  rewrite Vm, (setp_id opts' "messages") by done.
  assert (Vp : getp opts' "password" ||| password this = getp opts' "password")
    by (rewrite Hp; apply jor_absorb).
  rewrite Vp, (setp_id opts' "password") by done.
  assert (Vr : getp opts' "realm" ||| realm this = getp opts' "realm")
    by (rewrite Hr; apply jor_absorb).
  rewrite Vr, (setp_id opts' "realm") by done.
  assert (Vsf : getp opts' "secretFile" ||| secretFile this
                = getp opts' "secretFile") by (rewrite Hsf; apply jor_absorb).
  rewrite Vsf, (setp_id opts' "secretFile") by done.
  assert (Vsa : getp opts' "serviceAccount" ||| serviceAccount this
                = getp opts' "serviceAccount") by (rewrite Hsa; apply jor_absorb).
  rewrite Vsa, (setp_id opts' "serviceAccount") by done.
  rewrite <- Hts, (setp_id opts' "tokenStore") by done.
  assert (Vu : getp opts' "username" ||| username this = getp opts' "username")
    by (rewrite Hu; apply jor_absorb).
  rewrite Vu, (setp_id opts' "username") by done.
  reflexivity.
Qed.

Lemma applyDefaults_other_keys (this : Auth) (arg opts' : JsVal) (k : string) :
  applyDefaults this arg = Return opts' →
  k ∉ defaulted_options →
  getp opts' k = getp (default_param arg) k.
Proof.
  intros Hdef Hk.
  destruct (applyDefaults_returns _ _ _ Hdef) as (Hobj & _).
  revert Hdef. unfold applyDefaults.
  rewrite (object_guard _ Hobj). simpl.
  destruct (truthy (environments_at _)); simpl; [|done].
  intros [= <-].
  unfold defaulted_options in Hk.
  repeat match type of Hk with
         | _ ∉ _ :: _ => apply not_elem_of_cons in Hk as [? Hk]
         end.
  by rewrite !getp_setp_ne by done.
Qed.

(** X7. [applyDefaults] touches the eleven options it assigns and no
    other: every other property of the options, [url], [authenticator],
    [accountName] and the like, reads after the call as before, and the
    options are still an object. *)
Theorem applyDefaults_keeps_other_options
    (this : Auth) (arg opts' : JsVal) (k : string) :
  applyDefaults this arg = Return opts' →
  k ∉ defaulted_options →
  getp opts' k = getp (default_param arg) k ∧ isObject opts' = true.
Proof.
  intros Hdef Hk. split.
  - by apply (applyDefaults_other_keys this).
  - by destruct (applyDefaults_returns _ _ _ Hdef) as (_ & ? & _).
Qed.

(** X8. In the options [applyDefaults] resolves, [env] is always
    truthy and [environments[env]] is truthy, so the name is one the table
    defines or one it inherits from [Object.prototype], and [tokenStore] is
    always the instance's store: a [tokenStore] passed with the call is
    never used. *)
Theorem applyDefaults_env_and_store (this : Auth) (arg opts' : JsVal) :
  applyDefaults this arg = Return opts' →
  truthy (getp opts' "env") = true
  ∧ truthy (environments_at (getp opts' "env")) = true
  ∧ (is_Some (environments !! to_string (getp opts' "env"))
     ∨ to_string (getp opts' "env") ∈ Object_prototype_names)
  ∧ getp opts' "tokenStore" = tokenStore this.
Proof.
  intros Hdef.
  pose proof (applyDefaults_returns _ _ _ Hdef) as Hfacts. cbv zeta in Hfacts.
  destruct Hfacts as (_ & _ & Henv & _ & _ & _ & He & _ & _ & _ & _ & _ & Hts & _).
  rewrite He. split; [unfold effective_env; by apply jor_truthy_r|].
  split; [done|]. split; [|done].
  unfold environments_at, inherited in Henv.
  destruct (environments !! _) as [v|]; [left; by eexists|right].
  destruct (existsb _ _) eqn:Hex; [|done].
  apply existsb_exists in Hex as (k & Hin & Hk).
  apply String.eqb_eq in Hk as ->. by apply list_elem_of_In.
Qed.

(** *** Failures on the way to the authenticator *)

(** X9. When the defaults apply and the authenticator cannot be built,
    [login] and, with a token store, [getAccount] fail with the error of
    [createAuthenticator] and leave the world as it was: nothing is logged,
    requested or looked up. *)
Theorem authenticator_failure_propagates
    (this : Auth) (arg opts' : JsVal) (e : JsError) (w : World) :
  applyDefaults this (default_param arg) = Return opts' →
  createAuthenticator opts' = Throw e →
  login this arg w = (Throw e, w)
  ∧ (truthy (tokenStore this) = true → getAccount this arg w = (Throw e, w)).
Proof.
  intros Hdef Hauth. split.
  - unfold login, bindM, liftO. by rewrite Hdef, Hauth.
  - intros Hstore. unfold getAccount, bindM, liftO. by rewrite Hstore, Hdef, Hauth.
Qed.

(** X10. [login] has no guard on the store: on any instance, with or
    without one, it hands the resolved options to the authenticator's own
    [login], and these carry the instance's store, [null] when there is
    none. *)
Theorem login_runs_without_store
    (this : Auth) (arg opts' authenticator : JsVal) (w : World) :
  applyDefaults this (default_param arg) = Return opts' →
  createAuthenticator opts' = Return authenticator →
  login this arg w = Authenticator_login authenticator opts' w
  ∧ getp opts' "tokenStore" = tokenStore this.
Proof.
  intros Hdef Hauth. split.
  - unfold login, bindM, liftO. by rewrite Hdef, Hauth.
  - by destruct (applyDefaults_returns _ _ _ Hdef)
      as (_ & _ & _ & _ & _ & _ & _ & _ & _ & _ & _ & _ & ? & _).
Qed.

(** *** What revoke does with its arguments and with the store's answer *)

Lemma accounts_given_checks (all accounts : JsVal) :
  accounts_given all accounts = true →
  negb (truthy all) && negb (String.eqb (typeof accounts) "string")
  && negb (isArray accounts) = false
  ∧ negb (truthy all) && negb (truthy (getp accounts "length")) = false.
Proof.
  unfold accounts_given.
  destruct (truthy all); [done|]. simpl.
  destruct (String.eqb (typeof accounts) "string"), (isArray accounts),
    (truthy (getp accounts "length")); done.
Qed.

(** Past its guards, [revoke] is the store call, the loop and the return. *)
Lemma revoke_given (this : Auth) (arg : JsVal) (w : World) :
  truthy (tokenStore this) = true →
  accounts_given (all_of arg) (accounts_of arg) = true →
  revoke this arg w
  = (await revoked ← store_removal this (accounts_of arg) (all_of arg) (baseUrl_of arg);
     run (if isArray revoked
          then for_of (elements revoked) logout_entry
          else ret ());
     ret revoked) w.
Proof.
  intros Hstore Hgiven.
  rewrite (revoke_bound _ _ _ (accounts_given_not_null _ Hgiven)).
  destruct (accounts_given_checks _ _ Hgiven) as [Hvalid Hnonempty].
  unfold revoke_body, store_removal. by rewrite Hstore, Hvalid, Hnonempty.
Qed.

(** The loop over entries whose logout requests are answered, followed by
    more entries: the answered ones leave their requests and log lines, in
    order, and the loop goes on with the rest. *)
Lemma logout_loop_trace
    (entries rest : list JsVal) (exchanges : list (string * Response)) (w : World) :
  Forall2 (λ entry x, logout_url entry = Return x.1 ∧ network x.1 = Return x.2)
          entries exchanges →
  for_of (entries ++ rest) logout_entry w
  = for_of rest logout_entry (after_logouts entries exchanges w).
Proof.
  intros Hall. revert w.
  induction Hall as [|entry [url res] entries exchanges [Hurl Hres] _ IH]; intros w.
  - simpl. f_equal. destruct w. unfold after_logouts. simpl.
    by rewrite !app_nil_r.
  - simpl in Hurl, Hres. simpl. unfold bindM at 1.
    unfold logout_entry, bindM, liftO, fetch, log. rewrite Hurl, Hres.
    rewrite IH. f_equal. unfold after_logouts. simpl.
    by rewrite <- !app_assoc.
Qed.

(** X11. With a token store and [all] not set, an empty [accounts], the
    empty string or an empty array, makes [revoke] return an empty sequence
    at once: the store is not called, nothing is requested or logged. *)
Theorem revoke_empty_accounts (this : Auth) (arg : JsVal) (w : World) :
  truthy (tokenStore this) = true →
  truthy (all_of arg) = false →
  typeof (accounts_of arg) = "string" ∨ isArray (accounts_of arg) = true →
  truthy (getp (accounts_of arg) "length") = false →
  revoke this arg w = (Return (array_of []), w).
Proof.
  intros Hstore Hall Hkind Hempty.
  rewrite (revoke_bound _ _ _ (accounts_kind_not_null _ Hkind)).
  unfold revoke_body.
  rewrite Hstore, Hall, Hempty. simpl.
  destruct Hkind as [-> | ->]; simpl; [done|].
  by rewrite andb_false_r.
Qed.


(** X13. When the store answers with something that is not an array,
    [revoke] returns it as it is and sends no logout request: the world is
    the one the store left. *)
Theorem revoke_non_array_result
    (this : Auth) (arg revoked : JsVal) (w w1 : World) :
  truthy (tokenStore this) = true →
  accounts_given (all_of arg) (accounts_of arg) = true →
  store_removal this (accounts_of arg) (all_of arg) (baseUrl_of arg) w
  = (Return revoked, w1) →
  isArray revoked = false →
  revoke this arg w = (Return revoked, w1).
Proof.
  intros Hstore Hgiven Hremoved Harr.
  rewrite revoke_given by done.
  unfold bindM at 1. rewrite Hremoved.
  unfold bindM at 1. by rewrite Harr.
Qed.

(** X14. When every logout request is answered, [revoke] sends exactly
    one request for each removed entry, in the order of the entries, logs
    exactly one line for each, in the same order, and changes nothing else
    of what the store left. *)
Theorem revoke_request_trace
    (this : Auth) (arg : JsVal) (w w1 : World)
    (entries : list JsVal) (props : gmap string JsVal)
    (exchanges : list (string * Response)) :
  truthy (tokenStore this) = true →
  accounts_given (all_of arg) (accounts_of arg) = true →
  store_removal this (accounts_of arg) (all_of arg) (baseUrl_of arg) w
  = (Return (JArr entries props), w1) →
  Forall2 (λ entry x, logout_url entry = Return x.1 ∧ network x.1 = Return x.2)
          entries exchanges →
  revoke this arg w
  = (Return (JArr entries props), after_logouts entries exchanges w1).
Proof.
  intros Hstore Hgiven Hremoved Hall.
  rewrite revoke_given by done.
  unfold bindM at 1. rewrite Hremoved.
  unfold bindM at 1. simpl.
  rewrite <- (app_nil_r entries) at 1.
  by rewrite (logout_loop_trace _ [] _ _ Hall).
Qed.

(** X15. The first entry whose logout fails ends the call: [revoke] fails
    with that error, the entries before it have had their requests and log
    lines, the entries after it get no request, and the entries stay
    removed from the store.  When the URL cannot be formed no request goes
    out for the failing entry; when the request fails in transport it has
    been sent. *)
Theorem revoke_stops_at_first_failure
    (this : Auth) (arg : JsVal) (w w1 : World)
    (before after : list JsVal) (failing : JsVal) (props : gmap string JsVal)
    (exchanges : list (string * Response)) (e : JsError) :
  truthy (tokenStore this) = true →
  accounts_given (all_of arg) (accounts_of arg) = true →
  store_removal this (accounts_of arg) (all_of arg) (baseUrl_of arg) w
  = (Return (JArr (before ++ failing :: after) props), w1) →
  Forall2 (λ entry x, logout_url entry = Return x.1 ∧ network x.1 = Return x.2)
          before exchanges →
  (logout_url failing = Throw e →
   revoke this arg w = (Throw e, after_logouts before exchanges w1))
  ∧ (∀ url, logout_url failing = Return url →
            network url = Throw e →
            revoke this arg w
            = (Throw e,
               mkWorld (w_log w1 ++ zip_with logout_line before (exchanges.*2))
                       (w_requests w1 ++ exchanges.*1 ++ [url])
                       (w_entries w1))).
Proof.
  intros Hstore Hgiven Hremoved Hall.
  assert (Hrun : revoke this arg w
                 = match for_of (failing :: after) logout_entry
                           (after_logouts before exchanges w1) with
                   | (Return _, w') => (Return (JArr (before ++ failing :: after) props), w')
                   | (Throw e', w') => (Throw e', w')
                   end).
  { rewrite revoke_given by done.
    unfold bindM at 1. rewrite Hremoved.
    unfold bindM at 1. simpl.
    rewrite (logout_loop_trace _ _ _ _ Hall).
    reflexivity. }
  rewrite Hrun. split.
  - intros Hurl. simpl. unfold bindM at 1.
    unfold logout_entry, bindM, liftO. by rewrite Hurl.
  - intros url Hurl Hnet. simpl. unfold bindM at 1.
    unfold logout_entry, bindM, liftO, fetch. rewrite Hurl, Hnet.
    unfold after_logouts. simpl. by rewrite <- app_assoc.
Qed.

(** X16. [revoke] and [list] consult nothing of the instance but its
    store: two instances that share a store, whatever their environment,
    base URL and other defaults, revoke and list alike.  In particular the
    [baseUrl] filter of [revoke] is the call's own and is not defaulted. *)
Theorem revoke_ignores_instance_defaults
    (this this' : Auth) (arg : JsVal) (w : World) :
  tokenStore this = tokenStore this' →
  revoke this arg w = revoke this' arg w
  ∧ list_ this w = list_ this' w.
Proof.
  intros Hsame. unfold revoke, revoke_body, list_. by rewrite Hsame.
Qed.

(** *** Edges of the logout URL, of discovery and of the lookup *)

(** X17. The logout URL of an entry: an entry with no [tokens] makes it a
    runtime error, one that carries no [code]; an entry whose [tokens] has
    no [id_token] still gets a URL, with the hint [undefined]. *)
Theorem logout_url_edges (entry endpoints : JsVal) :
  getEndpoints entry = Return endpoints →
  isObject endpoints = true →
  isObject entry = true →
  (getp entry "tokens" = JUndefined →
   ∃ e, logout_url entry = Throw e ∧ err_code e = None)
  ∧ (isObject (getp entry "tokens") = true →
     getp (getp entry "tokens") "id_token" = JUndefined →
     logout_url entry
     = Return (to_string (getp endpoints "logout") ++ "?id_token_hint=undefined")).
Proof.
  intros Hep Hobj Hentry. unfold logout_url.
  rewrite Hep. simpl.
  rewrite (get_prop_object _ _ Hobj), (get_prop_object _ _ Hentry). simpl.
  split.
  - intros ->. simpl. by eexists.
  - intros Htokens Hid. rewrite (get_prop_object _ _ Htokens). simpl.
    by rewrite Hid.
Qed.

(** X18. With no [url] option, a failure of [getEndpoints] on the resolved
    options is the failure of [serverInfo], and nothing has been requested
    or logged by then. *)
Theorem serverInfo_endpoint_failure
    (this : Auth) (arg opts' : JsVal) (e : JsError) (w : World) :
  applyDefaults this (default_param arg) = Return opts' →
  truthy (getp (default_param arg) "url") = false →
  getEndpoints opts' = Throw e →
  serverInfo this arg w = (Throw e, w).
Proof.
  intros Hdef Hurl Hep.
  assert (Hsame : getp opts' "url" = getp (default_param arg) "url").
  { destruct (applyDefaults_returns _ _ _ Hdef)
      as (_ & _ & _ & _ & _ & _ & _ & _ & _ & _ & _ & _ & _ & _ & -> & _).
    by destruct arg. }
  unfold serverInfo, bindM, liftO. by rewrite Hdef, Hsame, Hurl, Hep.
Qed.

(** X19. The criteria [getAccount] hands to the store's [get]: the hash
    is the authenticator's, whatever [hash] the call carried, and every
    option [applyDefaults] does not assign, [accountName] for one, is the
    call's own. *)
Theorem getAccount_criteria
    (this : Auth) (arg opts' authenticator : JsVal) (w : World) :
  truthy (tokenStore this) = true →
  applyDefaults this (default_param arg) = Return opts' →
  createAuthenticator opts' = Return authenticator →
  ∃ criteria,
    getAccount this arg w = TokenStore_get (tokenStore this) criteria w
    ∧ getp criteria "hash" = getp authenticator "hash"
    ∧ getp criteria "baseUrl" = getp opts' "baseUrl"
    ∧ ∀ k, k ∉ defaulted_options → k ≠ "hash" →
           getp criteria k = getp (default_param arg) k.
Proof.
  intros Hstore Hdef Hauth.
  destruct (applyDefaults_returns _ _ _ Hdef) as (_ & Hobj' & _).
  exists (setp opts' "hash" (getp authenticator "hash")).
  split; [|split; [|split]].
  - unfold getAccount, bindM, liftO. rewrite Hstore, Hdef, Hauth. simpl.
    by rewrite (get_prop_object _ _ (createAuthenticator_object _ _ Hauth)).
  - by rewrite getp_setp_eq.
  - by rewrite getp_setp_ne.
  - intros k Hk Hhash. rewrite getp_setp_ne by done.
    rewrite (applyDefaults_other_keys _ _ _ k Hdef Hk).
    by destruct arg.
Qed.

(** X20. A password the call gives as the empty string does not survive
    the defaults: it is replaced by the instance's password, so unless the
    instance has a string for a password the resolved options do not select
    the owner-password authenticator, whatever the user name. *)
Theorem empty_password_not_kept (this : Auth) (arg opts' : JsVal) :
  applyDefaults this arg = Return opts' →
  truthy (getp (default_param arg) "password") = false →
  getp opts' "password" = password this
  ∧ (typeof (password this) ≠ "string" → username_password_present opts' = false).
Proof.
  intros Hdef Hfalsy.
  destruct (applyDefaults_returns _ _ _ Hdef)
    as (_ & _ & _ & _ & _ & _ & _ & _ & Hp & _).
  assert (Hpw : getp opts' "password" = password this).
  { rewrite Hp. unfold jor. by rewrite Hfalsy. }
  split; [done|].
  intros Hnot. unfold username_password_present. rewrite Hpw.
  destruct (String.eqb_spec (typeof (password this)) "string"); [done|].
  by rewrite andb_false_r.
Qed.

End FacadeMore.

(** ** The further properties on concrete runs *)

(** X1 on [new Auth(null)]. *)
Lemma constructor_rejects_non_object_witness :
  @constructor plain JNull
  = Throw (E.INVALID_ARGUMENT "Expected options to be an object").
Proof.
  apply (@constructor_rejects_non_object plain JNull); [discriminate|reflexivity].
Defined.

(** X2 on [login('prod')] for an instance whose environment is unknown. *)
Lemma operations_reject_non_object_witness :
  @login plain auth_bogus_env (JStr "prod") world_cid
  = (Throw (E.INVALID_ARGUMENT "Expected options to be an object"), world_cid).
Proof.
  destruct (@operations_reject_non_object plain auth_bogus_env (JStr "prod") world_cid)
    as (_ & Hlogin & _); [discriminate|reflexivity|].
  exact Hlogin.
Defined.

(** X3 on a file store passed with the type ['secure'] on a host without a
    vault, and on a string passed as the store. *)
Lemma constructor_supplied_store_witness :
  (∃ this, @constructor plain opts_supplied_store = Return this
           ∧ tokenStore this = JObj ClsFileStore ∅)
  ∧ (∃ msg, @constructor plain opts_wrong_store = Throw (E.INVALID_PARAMETER msg)).
Proof.
  split.
  - destruct (@constructor_supplied_store plain opts_supplied_store eq_refl eq_refl)
      as [Hkept _].
    exact (Hkept eq_refl).
  - destruct (@constructor_supplied_store plain opts_wrong_store eq_refl eq_refl)
      as [_ Hthrown].
    exact (Hthrown eq_refl).
Defined.

(** X4 on [new Auth({ tokenStoreType: 'memory' })]. *)
Lemma constructor_explicit_store_type_witness :
  ∃ this, @constructor plain opts_memory = Return this
          ∧ tokenStore this = JObj ClsMemoryStore ∅.
Proof.
  destruct (@constructor_explicit_store_type plain opts_memory eq_refl eq_refl)
    as [Hmemory _].
  destruct (Hmemory eq_refl) as [Hbuilt _].
  exact (Hbuilt _ eq_refl).
Defined.

(** X5 on an instance built with a base URL and a client id, called with
    a base URL and a realm: the call's base URL, the constructor's client
    id. *)
Lemma constructor_options_become_defaults_witness :
  @constructor plain opts_instance = Return auth_baseUrl
  ∧ @applyDefaults plain auth_baseUrl opts_baseUrl = Return opts_baseUrl_resolved
  ∧ getp opts_baseUrl_resolved "clientId" = JStr "cid"
  ∧ getp opts_baseUrl_resolved "baseUrl" = JStr "https://call.example.com"
  ∧ getp opts_baseUrl_resolved "env" = JStr "prod".
Proof.
  assert (Hnew : @constructor plain opts_instance = Return auth_baseUrl)
    by (vm_compute; reflexivity).
  assert (Hdef : @applyDefaults plain auth_baseUrl opts_baseUrl
                 = Return opts_baseUrl_resolved) by (vm_compute; reflexivity).
  split; [exact Hnew|]. split; [exact Hdef|].
  destruct (@constructor_options_become_defaults plain opts_instance opts_baseUrl
              auth_baseUrl opts_baseUrl_resolved Hnew Hdef)
    as (Hci & _ & He & Hb & _).
  split; [rewrite Hci; reflexivity|].
  split; [rewrite Hb, He; reflexivity|].
  rewrite He; reflexivity.
Defined.

(** X6 on the same call. *)
Lemma applyDefaults_idempotent_witness :
  ∃ opts',
    @applyDefaults plain auth_baseUrl opts_baseUrl = Return opts'
    ∧ @applyDefaults plain auth_baseUrl opts' = Return opts'.
Proof.
  eexists. split; [reflexivity|].
  apply (@applyDefaults_idempotent plain auth_baseUrl opts_baseUrl). reflexivity.
Defined.

(** X7 on options that name a discovery URL. *)
Lemma applyDefaults_keeps_other_options_witness :
  ∃ opts',
    @applyDefaults plain auth_memory opts_url = Return opts'
    ∧ getp opts' "url"
      = JStr "https://idp.example.com/.well-known/openid-configuration".
Proof.
  eexists. split; [reflexivity|].
  eapply proj1.
  eapply (@applyDefaults_keeps_other_options plain auth_memory opts_url);
    [reflexivity|].
  unfold defaulted_options.
  repeat (apply not_elem_of_cons; split; [discriminate|]). apply not_elem_of_nil.
Defined.

(** X8 on a call that passes a store to an instance without one, and on
    a call that names the environment [constructor]. *)
Lemma applyDefaults_env_and_store_witness :
  (∃ opts',
     @applyDefaults plain auth_no_store opts_supplied_store = Return opts'
     ∧ getp opts_supplied_store "tokenStore" = JObj ClsFileStore ∅
     ∧ getp opts' "tokenStore" = JNull
     ∧ truthy (@environments_at plain (getp opts' "env")) = true)
  ∧ (∃ opts',
       @applyDefaults plain auth_memory opts_env_constructor = Return opts'
       ∧ getp opts' "env" = JStr "constructor"
       ∧ truthy (@environments_at plain (getp opts' "env")) = true).
Proof.
  split.
  - eexists. split; [reflexivity|]. split; [reflexivity|].
    edestruct (@applyDefaults_env_and_store plain auth_no_store opts_supplied_store)
      as (_ & Henv & _ & Hstore); [reflexivity|].
    split; [exact Hstore | exact Henv].
  - eexists. split; [reflexivity|]. split; [reflexivity|].
    edestruct (@applyDefaults_env_and_store plain auth_memory opts_env_constructor)
      as (_ & Henv & _); [reflexivity|].
    exact Henv.
Defined.

(** X9 on a login with a user name for an instance whose password is
    empty, which the owner-password authenticator refuses. *)
Lemma authenticator_failure_propagates_witness :
  @login plain auth_empty_password opts_username world_cid
  = (Throw (E.INVALID_ARGUMENT "Expected username and password to be non-empty strings"),
     world_cid).
Proof.
  edestruct (@authenticator_failure_propagates plain auth_empty_password opts_username)
    with (e := E.INVALID_ARGUMENT "Expected username and password to be non-empty strings")
    as [Hlogin _]; [reflexivity|vm_compute; reflexivity|].
  exact Hlogin.
Defined.

(** X10 on a login on an instance without a store. *)
Lemma login_runs_without_store_witness :
  ∃ opts' authenticator,
    @login plain auth_no_store opts_cid empty_world
    = @Authenticator_login plain authenticator opts' empty_world
    ∧ getp authenticator "hash" = JStr "pkce:cid:r:https://login.example.com"
    ∧ getp opts' "tokenStore" = JNull.
Proof.
  edestruct (@login_runs_without_store plain auth_no_store opts_cid)
    as [Hlogin Hstore]; [reflexivity|reflexivity|].
  eexists _, _. split; [exact Hlogin|]. split; [reflexivity|exact Hstore].
Defined.

(** X11 on [revoke({ accounts: '' })] and [revoke({ accounts: [] })]. *)
Lemma revoke_empty_accounts_witness :
  @revoke plain auth_memory args_empty_string world_cid
  = (Return (array_of []), world_cid)
  ∧ @revoke plain auth_memory args_empty_array world_cid
    = (Return (array_of []), world_cid).
Proof.
  split.
  - apply (@revoke_empty_accounts plain); try reflexivity. left. reflexivity.
  - apply (@revoke_empty_accounts plain); try reflexivity. right. reflexivity.
Defined.


(** X13 on a store whose [clear] resolves with nothing. *)
Lemma revoke_non_array_result_witness :
  @revoke quiet auth_memory args_all world_cid
  = (Return JUndefined, empty_world).
Proof.
  apply (@revoke_non_array_result quiet); reflexivity.
Defined.

(** X14 on a store with two entries. *)
Lemma revoke_request_trace_witness :
  @revoke plain auth_memory args_all world_two
  = (Return (array_of [entry_cid; entry_cid]),
     mkWorld [ "Successfully logged out cid 200 (https://login.example.com, r)";
               "Successfully logged out cid 200 (https://login.example.com, r)" ]
             [ logout_url_cid; logout_url_cid ] []).
Proof.
  rewrite (@revoke_request_trace plain auth_memory args_all
             world_two empty_world [entry_cid; entry_cid] ∅
             [ (logout_url_cid, mkResponse true 200);
               (logout_url_cid, mkResponse true 200) ]).
  - reflexivity.
  - reflexivity.
  - reflexivity.
  - vm_compute. reflexivity.
  - repeat constructor.
Defined.

(** X15 on three entries when the second one's logout cannot be reached,
    and when the second one has no tokens. *)
Lemma revoke_stops_at_first_failure_witness :
  @revoke selective auth_memory args_all world_three
  = (Throw (mkError (Some "ECONNREFUSED") "request failed, reason: connect ECONNREFUSED"),
     mkWorld [ "Successfully logged out cid 200 (https://login.example.com, r)" ]
             [ logout_url_cid; logout_url_down ] [])
  ∧ @revoke plain auth_memory args_all world_broken
    = (Throw (TypeError "Cannot read property 'id_token' of undefined"),
       mkWorld [ "Successfully logged out cid 200 (https://login.example.com, r)" ]
               [ logout_url_cid ] []).
Proof.
  split.
  - destruct (@revoke_stops_at_first_failure selective auth_memory args_all
                world_three empty_world
                [entry_cid] [entry_cid] entry_down ∅
                [ (logout_url_cid, mkResponse true 200) ]
                (mkError (Some "ECONNREFUSED") "request failed, reason: connect ECONNREFUSED")
                eq_refl eq_refl)
      as [_ Hsent].
    + vm_compute. reflexivity.
    + repeat constructor.
    + rewrite (Hsent logout_url_down); [reflexivity|reflexivity|reflexivity].
  - destruct (@revoke_stops_at_first_failure plain auth_memory args_all
                world_broken empty_world
                [entry_cid] [entry_cid] entry_no_tokens ∅
                [ (logout_url_cid, mkResponse true 200) ]
                (TypeError "Cannot read property 'id_token' of undefined")
                eq_refl eq_refl)
      as [Hunsent _].
    + vm_compute. reflexivity.
    + repeat constructor.
    + rewrite Hunsent; reflexivity.
Defined.

(** X16 on two instances over the memory store, one of an unknown
    environment. *)
Lemma revoke_ignores_instance_defaults_witness :
  @revoke plain auth_memory args_cid world_cid
  = @revoke plain auth_bogus_env args_cid world_cid.
Proof.
  apply (@revoke_ignores_instance_defaults plain auth_memory auth_bogus_env).
  reflexivity.
Defined.

(** X17 on an entry without tokens and on one without an identity token. *)
Lemma logout_url_edges_witness :
  (∃ e, @logout_url plain entry_no_tokens = Throw e ∧ err_code e = None)
  ∧ @logout_url plain entry_no_id_token
    = Return "https://login.example.com/auth/realms/r/protocol/openid-connect/logout?id_token_hint=undefined".
Proof.
  split.
  - edestruct (@logout_url_edges plain entry_no_tokens) as [Hnone _];
      [reflexivity|reflexivity|reflexivity|].
    apply Hnone. reflexivity.
  - edestruct (@logout_url_edges plain entry_no_id_token) as [_ Hhint];
      [reflexivity|reflexivity|reflexivity|].
    rewrite Hhint; reflexivity.
Defined.

(** X18 on [serverInfo()] with endpoints that insist on a realm. *)
Lemma serverInfo_endpoint_failure_witness :
  @serverInfo strict auth_memory empty_object world_cid
  = (Throw (E.INVALID_ARGUMENT "Expected realm to be a non-empty string"), world_cid).
Proof.
  eapply (@serverInfo_endpoint_failure strict auth_memory empty_object);
    reflexivity.
Defined.

(** X19 on a lookup that carries a hash of its own and an account name. *)
Lemma getAccount_criteria_witness :
  ∃ criteria,
    @getAccount plain auth_memory opts_forged world_cid
    = @TokenStore_get plain (tokenStore auth_memory) criteria world_cid
    ∧ getp opts_forged "hash" = JStr "forged"
    ∧ getp criteria "hash" = JStr "pkce:cid:r:https://login.example.com"
    ∧ getp criteria "accountName" = JStr "me".
Proof.
  edestruct (@getAccount_criteria plain auth_memory opts_forged)
    as (criteria & Hget & Hhash & _ & Hother);
    [reflexivity|reflexivity|reflexivity|].
  exists criteria. split; [exact Hget|]. split; [reflexivity|].
  split; [rewrite Hhash; reflexivity|].
  rewrite (Hother "accountName"); [reflexivity| |discriminate].
  unfold defaulted_options.
  repeat (apply not_elem_of_cons; split; [discriminate|]). apply not_elem_of_nil.
Defined.

(** X20 on a login with a user name, an empty password and a client
    secret: the client-secret authenticator is the one built. *)
Lemma empty_password_not_kept_witness :
  ∃ opts',
    @applyDefaults plain auth_memory opts_empty_password = Return opts'
    ∧ getp opts_empty_password "password" = JStr EmptyString
    ∧ getp opts' "password" = JUndefined
    ∧ username_password_present opts' = false
    ∧ @createAuthenticator plain opts' = @new_ (@ClientSecret plain) opts'.
Proof.
  eexists. split; [reflexivity|]. split; [reflexivity|].
  edestruct (@empty_password_not_kept plain auth_memory opts_empty_password)
    as [Hpw Hnot]; [reflexivity|reflexivity|].
  split; [exact Hpw|]. split; [apply Hnot; discriminate|].
  reflexivity.
Defined.
